(** * mentat: session stream, terminal client and loading bar

    A shallow embedding of [mentat/session_stream.py],
    [mentat/terminal/client.py] and [mentat/terminal/loading.py], with
    the message bus and the interval literals they rely on, and of parts
    of [mentat/engine.py] and [tests/conftest.py].

    Python objects that are mutated in place become explicit states that
    every operation takes and returns.  The event loop is cooperative
    (one thread), so each stretch of code between two [await]s is one
    atomic step of the model. *)

From Stdlib Require Import ZArith NArith Lia List String Ascii SpecFloat.
From stdpp Require Import base option list gmap strings fin_maps.

Local Open Scope string_scope.
Local Open Scope list_scope.

(** ** Python values *)

(** The part of Python's [Any] that the modelled code inspects:
    [isinstance(data, str)], dictionary lookups and arithmetic on integers
    and floats.  A float is an IEEE 754 binary64 value. *)
Inductive PyAny : Type :=
| PyNone
| PyBool (b : bool)
| PyInt (z : Z)
| PyFloat (f : spec_float)
| PyStr (s : string).

#[global] Instance spec_float_eq_dec : EqDecision spec_float.
Proof. solve_decision. Defined.

#[global] Instance PyAny_eq_dec : EqDecision PyAny.
Proof. solve_decision. Defined.

(** [uuid.UUID] wraps a 128-bit integer, [datetime] a point in time. *)
Definition UUID : Type := N.
Definition datetime : Type := N.

Definition uuid_bound : N := 2 ^ 128.

(** ** session_stream.py *)

Inductive StreamMessageSource : Type :=
| SERVER
| CLIENT.

#[global] Instance StreamMessageSource_eq_dec : EqDecision StreamMessageSource.
Proof. solve_decision. Defined.

(** The enum's [value]. *)
Definition source_value (s : StreamMessageSource) : string :=
  match s with
  | SERVER => "server"
  | CLIENT => "client"
  end.

Module StreamMessage.

Record t : Type := mk {
  id : UUID;
  channel : string;
  source : StreamMessageSource;
  data : PyAny;
  extra : option (gmap string PyAny);
  created_at : datetime
}.

#[global] Instance eq_dec : EqDecision t.
Proof. solve_decision. Defined.

End StreamMessage.

(** ** broadcast.py *)

Module Broadcast.

(** Modelled from the spec: [mentat/broadcast.py] is missing; the
    specification's StreamBus says that publishing delivers to every
    current subscriber of that channel and never blocks on a slow
    subscriber, and that a subscription yields a cancellable, unbounded
    lazy sequence restricted to that channel, released deterministically
    when the caller stops consuming.  A subscriber is an unbounded queue
    of events tagged with the channel it listens on. *)
Record Event : Type := mkEvent {
  ev_channel : string;
  message : StreamMessage.t
}.

Record Subscriber : Type := mkSubscriber {
  sub_channel : string;
  queue : list Event
}.

Record t : Type := mk {
  connected : bool;
  subscribers : gmap nat Subscriber;
  next_subscriber : nat
}.

(** Modelled from the spec: [Broadcast()]. *)
Definition new : t :=
  {| connected := false; subscribers := ∅; next_subscriber := 0 |}.

(** Modelled from the spec: [connect] and [disconnect]. *)
Definition connect (b : t) : t :=
  {| connected := true;
     subscribers := subscribers b;
     next_subscriber := next_subscriber b |}.

Definition disconnect (b : t) : t :=
  {| connected := false;
     subscribers := subscribers b;
     next_subscriber := next_subscriber b |}.

(** Modelled from the spec: an event is put on the queue of a subscriber
    of its channel and of no other. *)
Definition deliver (ev : Event) (s : Subscriber) : Subscriber :=
  if decide (sub_channel s = ev_channel ev)
  then {| sub_channel := sub_channel s; queue := queue s ++ [ev] |}
  else s.

(** Modelled from the spec: [publish_nowait(channel, message)]. *)
Definition publish_nowait (channel : string) (m : StreamMessage.t) (b : t) : t :=
  {| connected := connected b;
     subscribers := deliver (mkEvent channel m) <$> subscribers b;
     next_subscriber := next_subscriber b |}.

(** Modelled from the spec: entering [subscribe(channel)] registers a
    new, empty queue and hands back its key. *)
Definition subscribe (channel : string) (b : t) : nat * t :=
  (next_subscriber b,
   {| connected := connected b;
      subscribers :=
        <[next_subscriber b := mkSubscriber channel []]> (subscribers b);
      next_subscriber := S (next_subscriber b) |}).

(** Modelled from the spec: leaving the [async with] block releases the
    subscription. *)
Definition unsubscribe (sid : nat) (b : t) : t :=
  {| connected := connected b;
     subscribers := delete sid (subscribers b);
     next_subscriber := next_subscriber b |}.

(** Modelled from the spec: one turn of [async for event in subscriber];
    [None] when the queue is empty, that is, the consumer stays
    suspended. *)
Definition next_event (sid : nat) (b : t) : option (Event * t) :=
  match subscribers b !! sid with
  | Some s =>
      match queue s with
      | ev :: q =>
          Some (ev,
                {| connected := connected b;
                   subscribers :=
                     <[sid := mkSubscriber (sub_channel s) q]> (subscribers b);
                   next_subscriber := next_subscriber b |})
      | [] => None
      end
  | None => None
  end.

(** What is waiting for subscriber [sid]. *)
Definition pending (sid : nat) (b : t) : list StreamMessage.t :=
  match subscribers b !! sid with
  | Some s => message <$> queue s
  | None => []
  end.

Definition listens_on (sid : nat) (channel : string) (b : t) : Prop :=
  sub_channel <$> subscribers b !! sid = Some channel.

#[global] Instance listens_on_dec sid channel b :
  Decision (listens_on sid channel b).
Proof. unfold listens_on. apply _. Defined.

End Broadcast.

(** ** The session stream *)

(** What [uuid4()] and [datetime.utcnow()] have handed out so far. *)
Record Clock : Type := mkClock {
  uuid_draws : nat;
  clock_reads : nat
}.

Record SessionStream : Type := mkSessionStream {
  messages : list StreamMessage.t;
  _broadcast : Broadcast.t
}.

(** [SessionStream.__init__] *)
Definition SessionStream_init : SessionStream :=
  {| messages := []; _broadcast := Broadcast.new |}.

(** [SessionStream.start] *)
Definition start (s : SessionStream) : SessionStream :=
  {| messages := messages s; _broadcast := Broadcast.connect (_broadcast s) |}.

(** [SessionStream.stop] *)
Definition stop (s : SessionStream) : SessionStream :=
  {| messages := messages s;
     _broadcast := Broadcast.disconnect (_broadcast s) |}.

Section Send.

(** The sources of identifiers and of time: the [k]-th value returned by
    [uuid4()] and by [datetime.utcnow()]. *)
Variable uuid4 : nat -> UUID.
Variable utcnow : nat -> datetime.

(** [SessionStream.send]: build the message, append it to the history,
    publish it, return it.  [kwargs] is the dictionary of the extra
    keyword arguments. *)
Definition send (data : PyAny) (source : StreamMessageSource)
    (channel : string) (kwargs : gmap string PyAny)
    (c : Clock) (s : SessionStream)
  : StreamMessage.t * Clock * SessionStream :=
  let message :=
    {| StreamMessage.id := uuid4 (uuid_draws c);
       StreamMessage.source := source;
       StreamMessage.channel := channel;
       StreamMessage.data := data;
       StreamMessage.created_at := utcnow (clock_reads c);
       StreamMessage.extra := Some kwargs |} in
  (message,
   {| uuid_draws := S (uuid_draws c); clock_reads := S (clock_reads c) |},
   {| messages := messages s ++ [message];
      _broadcast := Broadcast.publish_nowait channel message (_broadcast s) |}).

End Send.

(** [SessionStream.recv] and [SessionStream.listen] suspend at their
    [async for]; each is cut at its suspension points.  Both start by
    entering [self._broadcast.subscribe(channel)]. *)
Definition enter_subscription (channel : string) (s : SessionStream)
  : nat * SessionStream :=
  let '(sid, b) := Broadcast.subscribe channel (_broadcast s) in
  (sid, {| messages := messages s; _broadcast := b |}).

(** [recv] resumed: with an event waiting it returns [event.message] out
    of the [async with] block, which releases the subscription; with none
    it stays suspended. *)
Definition recv_resume (sid : nat) (s : SessionStream)
  : option (StreamMessage.t * SessionStream) :=
  match Broadcast.next_event sid (_broadcast s) with
  | Some (ev, b) =>
      Some (Broadcast.message ev,
            {| messages := messages s;
               _broadcast := Broadcast.unsubscribe sid b |})
  | None => None
  end.

(** [listen] resumed: with an event waiting it yields [event.message] and
    keeps the subscription. *)
Definition listen_resume (sid : nat) (s : SessionStream)
  : option (StreamMessage.t * SessionStream) :=
  match Broadcast.next_event sid (_broadcast s) with
  | Some (ev, b) =>
      Some (Broadcast.message ev, {| messages := messages s; _broadcast := b |})
  | None => None
  end.

(** The consumer of [listen] stops: the generator is closed and the
    [async with] block is left. *)
Definition listen_close (sid : nat) (s : SessionStream) : SessionStream :=
  {| messages := messages s;
     _broadcast := Broadcast.unsubscribe sid (_broadcast s) |}.

(** *** Runs of a session stream *)

(** One atomic step on the stream; a run of the event loop is a list of
    them. *)
Inductive action : Type :=
| Start
| Stop
| Send (data : PyAny) (source : StreamMessageSource) (channel : string)
       (kwargs : gmap string PyAny)
| Subscribe (channel : string)
| RecvResume (sid : nat)
| ListenResume (sid : nat)
| ListenClose (sid : nat).

(** What a step hands to its caller. *)
Inductive observation : Type :=
| Silent
| Sent (m : StreamMessage.t)
| Subscribed (sid : nat)
| Received (sid : nat) (m : StreamMessage.t).

Section Runs.

Variable uuid4 : nat -> UUID.
Variable utcnow : nat -> datetime.

Definition step (a : action) (w : Clock * SessionStream)
  : observation * (Clock * SessionStream) :=
  let '(c, s) := w in
  match a with
  | Start => (Silent, (c, start s))
  | Stop => (Silent, (c, stop s))
  | Send data source channel kwargs =>
      let '(m, c', s') := send uuid4 utcnow data source channel kwargs c s in
      (Sent m, (c', s'))
  | Subscribe channel =>
      let '(sid, s') := enter_subscription channel s in
      (Subscribed sid, (c, s'))
  | RecvResume sid =>
      match recv_resume sid s with
      | Some (m, s') => (Received sid m, (c, s'))
      | None => (Silent, (c, s))
      end
  | ListenResume sid =>
      match listen_resume sid s with
      | Some (m, s') => (Received sid m, (c, s'))
      | None => (Silent, (c, s))
      end
  | ListenClose sid => (Silent, (c, listen_close sid s))
  end.

Fixpoint run (acts : list action) (w : Clock * SessionStream)
  : list observation * (Clock * SessionStream) :=
  match acts with
  | [] => ([], w)
  | a :: acts' =>
      let '(o, w') := step a w in
      let '(os, w'') := run acts' w' in
      (o :: os, w'')
  end.

End Runs.

(** The messages sent on [channel] and the messages handed to subscriber
    [sid], in the order of the run. *)
Fixpoint sent_on (channel : string) (os : list observation)
  : list StreamMessage.t :=
  match os with
  | [] => []
  | Sent m :: os' =>
      if decide (StreamMessage.channel m = channel)
      then m :: sent_on channel os'
      else sent_on channel os'
  | _ :: os' => sent_on channel os'
  end.

Fixpoint received_by (sid : nat) (os : list observation)
  : list StreamMessage.t :=
  match os with
  | [] => []
  | Received sid' m :: os' =>
      if decide (sid' = sid)
      then m :: received_by sid os'
      else received_by sid os'
  | _ :: os' => received_by sid os'
  end.

(** Steps that end the subscription [sid]. *)
Definition releases (sid : nat) (a : action) : bool :=
  match a with
  | RecvResume sid' | ListenClose sid' => bool_decide (sid' = sid)
  | _ => false
  end.

(** Keys are handed out in increasing order, so a new subscription never
    takes the key of a live one. *)
Definition keys_below (b : Broadcast.t) : Prop :=
  ∀ sid, is_Some (Broadcast.subscribers b !! sid) → sid < Broadcast.next_subscriber b.

(** ** Text of a UUID *)

(** One lowercase hexadecimal digit, as ['%x'] prints it. *)
Definition hex_digit (d : N) : ascii :=
  match d with
  | 0%N => "0" | 1%N => "1" | 2%N => "2" | 3%N => "3"
  | 4%N => "4" | 5%N => "5" | 6%N => "6" | 7%N => "7"
  | 8%N => "8" | 9%N => "9" | 10%N => "a" | 11%N => "b"
  | 12%N => "c" | 13%N => "d" | 14%N => "e" | _ => "f"
  end%char.

(** ['%032x' % int] for an integer below [16 ^ 32]: the [w] low digits,
    most significant first. *)
Fixpoint hex_fixed (w : nat) (n : N) : list ascii :=
  match w with
  | O => []
  | S w' => hex_fixed w' (n / 16) ++ [hex_digit (n mod 16)]
  end.

(** [UUID.__str__]: the 32 digits cut as 8-4-4-4-12 and joined by
    hyphens. *)
Definition hyphenate (hex : list ascii) : list ascii :=
  take 8 hex ++ "-"%char :: take 4 (drop 8 hex) ++ "-"%char ::
  take 4 (drop 12 hex) ++ "-"%char :: take 4 (drop 16 hex) ++ "-"%char ::
  drop 20 hex.

Definition uuid_str (u : UUID) : string :=
  string_of_list_ascii (hyphenate (hex_fixed 32 u)).

(** ** terminal/client.py *)

(** The flags of [TerminalClient] that the input handler touches. *)
Record TerminalClient : Type := mkTerminalClient {
  _should_exit : bool;
  _force_exit : bool
}.

(** [TerminalClient.__init__] *)
Definition TerminalClient_init : TerminalClient :=
  {| _should_exit := false; _force_exit := false |}.

Inductive exn : Type :=
| TypeError
| OverflowError.

(** Where the task running [_handle_input_requests] stands. *)
Inductive HandlerTask : Type :=
| NotStarted
| AwaitingRequest (sid : nat)
| AwaitingPrompt (input_request_message : StreamMessage.t)
| Returned
| Raised (e : exn).

(** The channel name [f"input_request:{id}"]. *)
Definition reply_channel (request_id : UUID) : string :=
  "input_request:" +:+ uuid_str request_id.

Section Client.

Variable uuid4 : nat -> UUID.
Variable utcnow : nat -> datetime.

(** The body of the loop after the prompt has returned [user_input].
    [send] is a plain function returning a [StreamMessage]; the handler
    awaits that value, which is not awaitable, so after the message has
    been published the task ends with a [TypeError]. *)
Definition answer_input_request (input_request_message : StreamMessage.t)
    (user_input : string)
    (client : TerminalClient) (c : Clock) (s : SessionStream)
  : HandlerTask * TerminalClient * Clock * SessionStream :=
  if decide (user_input = "q")
  then (Returned,
        {| _should_exit := true; _force_exit := _force_exit client |}, c, s)
  else
    let '(_, c', s') :=
      send uuid4 utcnow (PyStr user_input) CLIENT
           (reply_channel (StreamMessage.id input_request_message)) ∅ c s in
    (Raised TypeError, client, c', s').

(** [TerminalClient._handle_input_requests], one atomic step at a time.
    [user_input] is what [prompt_async] delivers, if it has completed. *)
Definition _handle_input_requests (user_input : option string)
    (task : HandlerTask)
    (client : TerminalClient) (c : Clock) (s : SessionStream)
  : HandlerTask * TerminalClient * Clock * SessionStream :=
  match task with
  | NotStarted =>
      let '(sid, s') := enter_subscription "input_request" s in
      (AwaitingRequest sid, client, c, s')
  | AwaitingRequest sid =>
      match recv_resume sid s with
      | Some (m, s') => (AwaitingPrompt m, client, c, s')
      | None => (task, client, c, s)
      end
  | AwaitingPrompt m =>
      match user_input with
      | Some u => answer_input_request m u client c s
      | None => (task, client, c, s)
      end
  | Returned | Raised _ => (task, client, c, s)
  end.

(** Modelled from the spec: the requesting side, whose module is
    missing.  The specification has it publish on [input_request] with a
    fresh id, then subscribe on [input_request:{id}] and await exactly one
    message: the request is sent and its reply channel entered in one
    step; the await is [recv_resume] on the key returned here. *)
Definition request_input (prompt : PyAny) (c : Clock) (s : SessionStream)
  : StreamMessage.t * nat * Clock * SessionStream :=
  let '(m, c', s') := send uuid4 utcnow prompt SERVER "input_request" ∅ c s in
  let '(sid, s'') := enter_subscription (reply_channel (StreamMessage.id m)) s' in
  (m, sid, c', s'').

End Client.

(** ** Python numbers *)

(** An [int] or a [float]. *)
Inductive number : Type :=
| NumInt (z : Z)
| NumFloat (f : spec_float).

Definition binary64_add : spec_float -> spec_float -> spec_float :=
  SFadd 53 1024.

Definition binary64_sub : spec_float -> spec_float -> spec_float :=
  SFsub 53 1024.

(** [float(z)]: the nearest binary64 value, ties to even; an integer too
    large for a float raises [OverflowError] ([None]). *)
Definition float_of_int (z : Z) : option spec_float :=
  match binary_normalize 53 1024 z 0 false with
  | S754_infinity _ => None
  | f => Some f
  end.

(** Comparison of a float with an integer, which Python does on the
    exact values; [None] when the float is a NaN. *)
Definition compare_float_int (f : spec_float) (z : Z) : option comparison :=
  match f with
  | S754_nan => None
  | S754_infinity s => Some (if s then Lt else Gt)
  | S754_zero _ => Some (0 ?= z)%Z
  | S754_finite s m e =>
      let v := if s then Z.neg m else Z.pos m in
      if (0 <=? e)%Z then Some (v * 2 ^ e ?= z)%Z
      else Some (v ?= z * 2 ^ (- e))%Z
  end.

Definition num_compare (a b : number) : option comparison :=
  match a, b with
  | NumInt x, NumInt y => Some (x ?= y)%Z
  | NumFloat f, NumFloat g => SFcompare f g
  | NumFloat f, NumInt y => compare_float_int f y
  | NumInt x, NumFloat g => CompOpp <$> compare_float_int g x
  end.

(** [a < b] and [a == b] *)
Definition num_lt (a b : number) : bool :=
  match num_compare a b with
  | Some Lt => true
  | _ => false
  end.

Definition num_eq (a b : number) : bool :=
  match num_compare a b with
  | Some Eq => true
  | _ => false
  end.

(** [a + b] and [a - b]: on two integers exact, else on floats after
    converting the integer, which can raise [OverflowError]. *)
Definition num_binop (on_int : Z -> Z -> Z)
    (on_float : spec_float -> spec_float -> spec_float)
    (a b : number) : option number :=
  match a, b with
  | NumInt x, NumInt y => Some (NumInt (on_int x y))
  | NumFloat f, NumFloat g => Some (NumFloat (on_float f g))
  | NumFloat f, NumInt y =>
      match float_of_int y with
      | Some g => Some (NumFloat (on_float f g))
      | None => None
      end
  | NumInt x, NumFloat g =>
      match float_of_int x with
      | Some f => Some (NumFloat (on_float f g))
      | None => None
      end
  end.

Definition num_add : number -> number -> option number :=
  num_binop Z.add binary64_add.

Definition num_sub : number -> number -> option number :=
  num_binop Z.sub binary64_sub.

(** [min(a, b)]: [b] when [b < a], else [a]. *)
Definition num_min (a b : number) : number :=
  if num_lt b a then b else a.

(** ** terminal/loading.py *)

Module tqdm.

(** The progress bar of the [tqdm] library, as far as [LoadingHandler]
    drives it: the counter [n], the [total], the description, and
    [disable], which [close] sets and which turns [update] into a
    no-op. *)
Record t : Type := mk {
  total : Z;
  n : number;
  desc : string;
  disable : bool
}.

(** [tqdm(total=total, desc=desc, ...)] *)
Definition new (total : Z) (desc : string) : t :=
  {| total := total; n := NumInt 0; desc := desc; disable := false |}.

(** [tqdm.set_description] *)
Definition set_description (text : string) (p : t) : t :=
  {| total := total p; n := n p; desc := text; disable := disable p |}.

(** [tqdm.update]: returns at once on a disabled bar, else [self.n += k];
    [None] when the addition raises [OverflowError]. *)
Definition update (k : number) (p : t) : option t :=
  if disable p then Some p
  else
    match num_add (n p) k with
    | Some n' =>
        Some {| total := total p; n := n'; desc := desc p; disable := false |}
    | None => None
    end.

(** [tqdm.close] *)
Definition close (p : t) : t :=
  {| total := total p; n := n p; desc := desc p; disable := true |}.

End tqdm.

Record LoadingHandler : Type := mkLoadingHandler {
  pbar : option tqdm.t
}.

(** [LoadingHandler.__init__] *)
Definition LoadingHandler_init : LoadingHandler := {| pbar := None |}.

(** The number a Python value stands for in [min] and [+]; [bool] is a
    subclass of [int].  [None] and strings do not compare with a
    number. *)
Definition as_number (v : PyAny) : option number :=
  match v with
  | PyInt z => Some (NumInt z)
  | PyBool b => Some (NumInt (if b then 1 else 0))
  | PyFloat f => Some (NumFloat f)
  | PyNone | PyStr _ => None
  end.

(** [message.extra and "progress" in message.extra], then
    [message.extra["progress"]]. *)
Definition progress_of (m : StreamMessage.t) : option PyAny :=
  match StreamMessage.extra m with
  | Some extra => extra !! "progress"
  | None => None
  end.

(** [LoadingHandler.update]; the second component is the exception that
    ended the call, if any. *)
Definition LoadingHandler_update (m : StreamMessage.t) (h : LoadingHandler)
  : LoadingHandler * option exn :=
  let text :=
    match StreamMessage.data m with
    | PyStr s => s
    | _ => ""
    end in
  let p :=
    match pbar h with
    | None => tqdm.new 100 text
    | Some p => if decide (text = "") then p else tqdm.set_description text p
    end in
  match progress_of m with
  | Some v =>
      match as_number v with
      | Some progress =>
          match num_sub (NumInt (tqdm.total p)) (tqdm.n p) with
          | Some remaining =>
              let _progress := num_min progress remaining in
              match tqdm.update _progress p with
              | Some p' =>
                  if num_eq (tqdm.n p') (NumInt (tqdm.total p'))
                  then ({| pbar := Some (tqdm.close p') |}, None)
                  else ({| pbar := Some p' |}, None)
              | None => ({| pbar := Some p |}, Some OverflowError)
              end
          | None => ({| pbar := Some p |}, Some OverflowError)
          end
      | None => ({| pbar := Some p |}, Some TypeError)
      end
  | None => ({| pbar := Some p |}, None)
  end.

(** [LoadingHandler.terminate] *)
Definition terminate (h : LoadingHandler) : LoadingHandler :=
  {| pbar := None |}.

(** A sequence of [update] calls; a call that raises leaves the handler
    as it was at the raise, and the caller goes on with the next
    message. *)
Fixpoint updates (ms : list StreamMessage.t) (h : LoadingHandler)
  : LoadingHandler :=
  match ms with
  | [] => h
  | m :: ms' => updates ms' (LoadingHandler_update m h).1
  end.

(** The count and the closed flag of the handler's bar; a handler without
    a bar has counted nothing. *)
Definition bar_count (h : LoadingHandler) : number :=
  match pbar h with
  | Some p => tqdm.n p
  | None => NumInt 0
  end.

Definition bar_closed (h : LoadingHandler) : bool :=
  match pbar h with
  | Some p => tqdm.disable p
  | None => false
  end.

(** The progress value of a message when it is an [int] (or a [bool]). *)
Definition progress_value (m : StreamMessage.t) : option Z :=
  match progress_of m with
  | Some (PyInt z) => Some z
  | Some (PyBool b) => Some (if b then 1 else 0)%Z
  | _ => None
  end.

(** Messages whose progress value, if any, is not a float. *)
Definition integral (m : StreamMessage.t) : Prop :=
  match progress_of m with
  | Some (PyFloat _) => False
  | _ => True
  end.

(** What the bar of a handler must satisfy. *)
Definition bar_ok (h : LoadingHandler) : Prop :=
  match pbar h with
  | None => True
  | Some p =>
      tqdm.total p = 100%Z ∧
      ∃ z, tqdm.n p = NumInt z ∧ (z ≤ 100)%Z ∧
           (tqdm.disable p = true ↔ z = 100%Z)
  end.

(** ** Paths with intervals (terminal/client.py, code_file.py) *)

Definition newline : ascii := ascii_of_nat 10.

(** [s.split(sep)] for a one-character separator. *)
Fixpoint split_on (sep : ascii) (s : string) : list string :=
  match s with
  | EmptyString => [""]
  | String ch s' =>
      if decide (ch = sep) then "" :: split_on sep s'
      else
        match split_on sep s' with
        | piece :: pieces => String ch piece :: pieces
        | [] => [String ch ""]
        end
  end.

(** [s.rsplit(sep, 1)]: the text before the last separator and, when
    there is a separator, the text after it. *)
Fixpoint rsplit1 (sep : ascii) (s : string) : string * option string :=
  match s with
  | EmptyString => ("", None)
  | String ch s' =>
      match rsplit1 sep s' with
      | (before, Some after) => (String ch before, Some after)
      | (rest, None) =>
          if decide (ch = sep) then ("", Some rest) else (String ch rest, None)
      end
  end.

Definition digit_value (ch : ascii) : option N :=
  let k := N_of_ascii ch in
  if decide (48 ≤ k ∧ k ≤ 57)%N then Some (k - 48)%N else None.

(** A non-empty run of decimal digits, read as a number. *)
Fixpoint digits_value (acc : N) (s : string) : option N :=
  match s with
  | EmptyString => Some acc
  | String ch s' =>
      match digit_value ch with
      | Some d => digits_value (10 * acc + d)%N s'
      | None => None
      end
  end.

Definition parse_number (s : string) : option N :=
  match s with
  | EmptyString => None
  | _ => digits_value 0%N s
  end.

(** Modelled from the spec: an Interval is [(start, end)], 1-indexed,
    inclusive, with [start ≤ end]. *)
Record Interval : Type := mkInterval {
  interval_start : N;
  interval_end : N
}.

#[global] Instance Interval_eq_dec : EqDecision Interval.
Proof. solve_decision. Defined.

(** Modelled from the spec: [range = N | N-M], 1-indexed and inclusive;
    a range that is not of this shape, that starts at line 0, or whose
    start is after its end, is rejected. *)
Definition parse_range (s : string) : option Interval :=
  match split_on "-" s with
  | [a] =>
      match parse_number a with
      | Some k => if decide (1 ≤ k)%N then Some (mkInterval k k) else None
      | None => None
      end
  | [a; b] =>
      match parse_number a, parse_number b with
      | Some k, Some m =>
          if decide (1 ≤ k ∧ k ≤ m)%N then Some (mkInterval k m) else None
      | _, _ => None
      end
  | _ => None
  end.

(** Modelled from the spec: [parse_intervals] of [mentat/code_file.py],
    which is missing, on the text after the colon of
    [path[:range[,range]*]].  [None] is a rejected literal. *)
Definition parse_intervals (s : string) : option (list Interval) :=
  mapM parse_range (split_on "," s).

(** What [expand_paths] takes from its surroundings:
    [glob.glob(pathname, recursive=True)] and [Path(p).exists()] of the
    file system, the text of [Path(path)], which [pathlib] normalises,
    and the order in which a [set] of strings is iterated, which depends
    on the hashes of the running process. *)
Record FileSystem : Type := mkFileSystem {
  glob : string -> list string;
  path_exists : string -> bool;
  as_path : string -> string;
  set_order : gset string -> list string
}.

Inductive effect : Type :=
| Print (line : string)
| SysExit
| ClientRun (paths exclude_paths : list string).

(** Truth value of [intervals]: a rejected literal and an empty list are
    both false. *)
Definition truthy (intervals : option (list Interval)) : bool :=
  match intervals with
  | Some (_ :: _) => true
  | _ => false
  end.

(** The loop of [expand_paths]: the set of accepted paths and the list of
    invalid ones. *)
Fixpoint expand_loop (fs : FileSystem) (paths : list string)
    (globbed_paths : gset string) (invalid_paths : list string)
  : gset string * list string :=
  match paths with
  | [] => (globbed_paths, invalid_paths)
  | path :: paths' =>
      match glob fs path with
      | (_ :: _) as new_paths =>
          expand_loop fs paths' (globbed_paths ∪ list_to_set new_paths)
                      invalid_paths
      | [] =>
          let '(p, rest) := rsplit1 ":" path in
          let intervals :=
            match rest with
            | Some r => parse_intervals r
            | None => None
            end in
          if path_exists fs p && truthy intervals
          then expand_loop fs paths' (globbed_paths ∪ {[path]}) invalid_paths
          else expand_loop fs paths' globbed_paths (invalid_paths ++ [path])%list
      end
  end.

(** [expand_paths]: what it prints, and the list
    [[Path(path) for path in globbed_paths]] it returns unless it
    exits. *)
Definition expand_paths (fs : FileSystem) (paths : list string)
  : list effect * option (list string) :=
  let '(globbed_paths, invalid_paths) := expand_loop fs paths ∅ [] in
  match invalid_paths with
  | _ :: _ =>
      ([Print "The following paths do not exist:";
        Print (String.concat (String newline "") invalid_paths);
        SysExit], None)
  | [] => ([], Some (as_path fs <$> set_order fs globbed_paths))
  end.

(** [run_cli] after argument parsing: both path lists are expanded, then
    the client is built and run.  Everything that reaches the network
    happens inside [TerminalClient.run]. *)
Definition run_cli (fs : FileSystem) (paths exclude_paths : list string)
  : list effect :=
  match expand_paths fs paths with
  | (out, None) => out
  | (out, Some ps) =>
      match expand_paths fs exclude_paths with
      | (out', None) => (out ++ out')%list
      | (out', Some es) => (out ++ out' ++ [ClientRun ps es])%list
      end
  end.

(** The handler task driven through a list of wake-ups; each entry is
    what the prompt has delivered at that wake-up, if anything. *)
Fixpoint handler_run (uuid4 : nat -> UUID) (utcnow : nat -> datetime)
    (inputs : list (option string)) (task : HandlerTask)
    (client : TerminalClient) (c : Clock) (s : SessionStream)
  : HandlerTask * TerminalClient * Clock * SessionStream :=
  match inputs with
  | [] => (task, client, c, s)
  | input :: inputs' =>
      let '(task', client', c', s') :=
        _handle_input_requests uuid4 utcnow input task client c s in
      handler_run uuid4 utcnow inputs' task' client' c' s'
  end.

(** The effect of starting the client, the only one that can reach the
    network. *)
Definition is_client_run (e : effect) : bool :=
  match e with
  | ClientRun _ _ => true
  | _ => false
  end.

(** ** Sample inputs *)

(** Sources of identifiers and time, and a run, used to exercise the
    statements below on concrete values. *)
Definition sample_uuid4 (k : nat) : UUID := N.of_nat k.
Definition sample_utcnow (k : nat) : datetime := N.of_nat k.

Definition sample_acts : list action :=
  [ Send (PyStr "one") SERVER "c" ∅;
    Send (PyStr "other") CLIENT "d" ∅;
    ListenResume 0;
    Subscribe "d";
    Send (PyStr "two") SERVER "c" ∅ ].

(** Two requests in flight: each is published and its reply channel
    entered before the client answers.  Each value is the request
    message, the key of the requester's subscription, the clock and the
    stream. *)
Definition sample_first
  : StreamMessage.t * nat * Clock * SessionStream :=
  request_input sample_uuid4 sample_utcnow (PyStr "Apply?")
                (mkClock 0 0) SessionStream_init.

Definition sample_second
  : StreamMessage.t * nat * Clock * SessionStream :=
  request_input sample_uuid4 sample_utcnow (PyStr "Again?")
                sample_first.1.2 sample_first.2.

(** A directory that holds [a.py] and nothing that a pattern with a
    colon would match. *)
Definition sample_fs : FileSystem :=
  {| glob pattern := if decide (pattern = "a.py") then ["a.py"] else [];
     path_exists p := bool_decide (p = "a.py");
     as_path p := p;
     set_order := elements |}.

(** A loading message with a text and a progress value. *)
Definition progress_message (text : string) (k : Z) : StreamMessage.t :=
  StreamMessage.mk 0%N "loading" SERVER (PyStr text)
                   (Some {["progress" := PyInt k]}) 0%N.

(** ** More of terminal/client.py *)

Section Interrupt.

Variable uuid4 : nat -> UUID.
Variable utcnow : nat -> datetime.

(** [TerminalClient._send_session_stream_interrupt]: an empty string is
    sent on the channel [interrupt]; like the reply of the input handler,
    the returned message is then awaited, which raises. *)
Definition _send_session_stream_interrupt (c : Clock) (s : SessionStream)
  : exn * Clock * SessionStream :=
  let '(_, c', s') := send uuid4 utcnow (PyStr "") CLIENT "interrupt" ∅ c s in
  (TypeError, c', s').

End Interrupt.

(** How a call of [TerminalClient._handle_exit] ends. *)
Inductive exit_outcome : Type :=
| FlagRaised
| AttributeErrorRaised.

(** [TerminalClient._handle_exit], the handler of SIGINT and SIGTERM.
    [is_stopped] is what the session object, whose class is not among the
    sources, answers to [session.is_stopped].  When it is false the
    condition goes on to read [session.stream.interrupt_lock]; a
    [SessionStream] has no such attribute, so the call ends there with an
    [AttributeError] and no flag is touched. *)
Definition TerminalClient_handle_exit (is_stopped : bool)
    (client : TerminalClient) : TerminalClient * exit_outcome :=
  if is_stopped
  then
    if _should_exit client
    then ({| _should_exit := _should_exit client; _force_exit := true |},
          FlagRaised)
    else ({| _should_exit := true; _force_exit := _force_exit client |},
          FlagRaised)
  else (client, AttributeErrorRaised).

(** A series of signals; each entry is the reading of [is_stopped] at the
    time of the signal. *)
Fixpoint client_signals (readings : list bool)
    (client : TerminalClient) : TerminalClient :=
  match readings with
  | [] => client
  | is_stopped :: readings' =>
      client_signals readings'
        (TerminalClient_handle_exit is_stopped client).1
  end.

(** The paths an [expand_paths] loop accepts: those that [glob] matches,
    and those made of an existing path, a colon and a literal that
    [parse_intervals] reads as at least one interval. *)
Definition acceptable (fs : FileSystem) (path : string) : bool :=
  match glob fs path with
  | _ :: _ => true
  | [] =>
      match rsplit1 ":" path with
      | (p, Some r) => path_exists fs p && truthy (parse_intervals r)
      | (_, None) => false
      end
  end.

(** What an accepted path adds to the result. *)
Definition expansion (fs : FileSystem) (path : string) : list string :=
  match glob fs path with
  | (_ :: _) as new_paths => new_paths
  | [] => [path]
  end.

(** ** engine.py *)

Module Engine.

(** The two flags of [Engine]; its RPC server, sessions and tasks play no
    part in the functions below. *)
Record t : Type := mk {
  _should_exit : bool;
  _force_exit : bool
}.

(** [Engine.__init__] *)
Definition init : t := {| _should_exit := false; _force_exit := false |}.

(** [Engine._handle_exit]: prints, then raises the first flag that is not
    yet raised. *)
Definition _handle_exit (e : t) : effect * t :=
  (Print "got a signal",
   if _should_exit e
   then {| _should_exit := _should_exit e; _force_exit := true |}
   else {| _should_exit := true; _force_exit := _force_exit e |}).

(** [k] signals in a row. *)
Fixpoint signals (k : nat) (e : t) : t :=
  match k with
  | O => e
  | S k' => signals k' (_handle_exit e).2
  end.

(** [Engine._main_loop].  The loop suspends in [asyncio.sleep(0.1)] once
    per turn; [sleeps] gives, for each sleep, the number of signals that
    arrive during it.  [None] means that the loop is still running when
    the listed sleeps are over.  The result carries the local counter and
    the number of turns taken. *)
Fixpoint _main_loop (sleeps : list nat) (e : t) (counter : Z) (turns : nat)
  : option (t * Z * nat) :=
  if _should_exit e then Some (e, counter, turns)
  else
    match sleeps with
    | [] => None
    | k :: sleeps' =>
        _main_loop sleeps' (signals k e) (((counter + 1) mod 86400)%Z) (S turns)
    end.

End Engine.

(** ** tests/conftest.py *)

(** A collected test item, as far as [filter_mark] looks at it: the
    markers that [get_closest_marker] can find. *)
Record TestItem : Type := mkTestItem {
  item_name : string;
  item_markers : list string
}.

#[global] Instance TestItem_eq_dec : EqDecision TestItem.
Proof. solve_decision. Defined.

(** [item.get_closest_marker(mark)]: the marker or [None]. *)
Definition get_closest_marker (mark : string) (item : TestItem)
  : option string :=
  if decide (mark ∈ item_markers item) then Some mark else None.

(** The loop of [filter_mark], with its accumulator [new_items]. *)
Fixpoint filter_mark_loop (items : list TestItem) (mark : string)
    (exists_ : bool) (new_items : list TestItem) : list TestItem :=
  match items with
  | [] => new_items
  | item :: items' =>
      let marker := get_closest_marker mark item in
      if decide (bool_decide (is_Some marker) = exists_)
      then filter_mark_loop items' mark exists_ (new_items ++ [item])
      else filter_mark_loop items' mark exists_ new_items
  end.

(** [filter_mark(items, mark, exists)] *)
Definition filter_mark (items : list TestItem) (mark : string)
    (exists_ : bool) : list TestItem :=
  filter_mark_loop items mark exists_ [].

(** [pytest_collection_modifyitems], given the two command-line
    options. *)
Definition pytest_collection_modifyitems (benchmark uitest : bool)
    (items : list TestItem) : list TestItem :=
  filter_mark (filter_mark items "benchmark" benchmark) "uitest" uitest.

(** ** Observations of a run, continued *)

(** Every message sent during a run, in order, whatever its channel. *)
Fixpoint sent_all (os : list observation) : list StreamMessage.t :=
  match os with
  | [] => []
  | Sent m :: os' => m :: sent_all os'
  | _ :: os' => sent_all os'
  end.

(** Three sends, the first on another channel. *)
Definition sample_sends : list action :=
  [ Send (PyStr "other") CLIENT "d" ∅;
    Send (PyStr "one") SERVER "c" ∅;
    Send (PyStr "two") SERVER "c" ∅ ].

(** A loading message whose progress is the float [num / 2 ^ scale]. *)
Definition float_progress_message (num : Z) (scale : Z) : StreamMessage.t :=
  StreamMessage.mk 0%N "loading" SERVER PyNone
    (Some {["progress" := PyFloat (binary_normalize 53 1024 num (- scale) false)]})
    0%N.

(** The sum of the progress values of a list of messages. *)
Definition progress_total (ms : list StreamMessage.t) : Z :=
  foldr (fun m acc => (default 0 (progress_value m) + acc)%Z) 0%Z ms.

Definition progress_nonneg (m : StreamMessage.t) : Prop :=
  integral m ∧
  match progress_value m with
  | Some k => (0 ≤ k)%Z
  | None => True
  end.

(** Whether a test item carries a marker. *)
Definition marked (mark : string) (item : TestItem) : bool :=
  bool_decide (mark ∈ item_markers item).

(** The texts of the grammar [range = N | N-M]: a number is a non-empty
    run of decimal digits, most significant first. *)
Definition digit_char (d : N) : ascii := ascii_of_N (48 + d).

Definition digits_text (ds : list N) : string :=
  string_of_list_ascii (digit_char <$> ds).

Definition digits_number (ds : list N) : N :=
  foldl (fun acc d => (10 * acc + d)%N) 0%N ds.

Definition is_digits (ds : list N) : Prop :=
  ds ≠ [] ∧ Forall (fun d => (d < 10)%N) ds.

Inductive range_shape : string -> Interval -> Prop :=
| range_single ds :
    is_digits ds → (1 ≤ digits_number ds)%N →
    range_shape (digits_text ds)
                (mkInterval (digits_number ds) (digits_number ds))
| range_pair a b :
    is_digits a → is_digits b →
    (1 ≤ digits_number a)%N → (digits_number a ≤ digits_number b)%N →
    range_shape (digits_text a +:+ String "-" (digits_text b))
                (mkInterval (digits_number a) (digits_number b)).

(** The handler subscribes, then two requests are made while it has not
    yet been woken again. *)
Definition sample_handler
  : HandlerTask * TerminalClient * Clock * SessionStream :=
  _handle_input_requests sample_uuid4 sample_utcnow None NotStarted
                         TerminalClient_init (mkClock 0 0) SessionStream_init.

Definition sample_request_x
  : StreamMessage.t * nat * Clock * SessionStream :=
  request_input sample_uuid4 sample_utcnow (PyStr "Apply?")
                sample_handler.1.2 sample_handler.2.

Definition sample_request_y
  : StreamMessage.t * nat * Clock * SessionStream :=
  request_input sample_uuid4 sample_utcnow (PyStr "Again?")
                sample_request_x.1.2 sample_request_x.2.

(** * Properties *)

(** ** The model on concrete inputs *)

Example uuid_str_zero :
  uuid_str 0%N = "00000000-0000-0000-0000-000000000000".
Proof. reflexivity. Qed.

Example uuid_str_digits :
  uuid_str 0x123e4567e89b12d3a456426614174000%N =
  "123e4567-e89b-12d3-a456-426614174000".
Proof. vm_compute. reflexivity. Qed.

Example sample_run_received :
  let w := run sample_uuid4 sample_utcnow sample_acts
               (mkClock 0 0, (enter_subscription "c" SessionStream_init).2) in
  StreamMessage.data <$> received_by 0 w.1 = [PyStr "one"] ∧
  StreamMessage.data <$> Broadcast.pending 0 (_broadcast w.2.2) = [PyStr "two"] ∧
  StreamMessage.data <$> messages w.2.2 =
    [PyStr "one"; PyStr "other"; PyStr "two"].
Proof. vm_compute. done. Qed.

Example split_on_commas : split_on "," "1-5,7,12-40" = ["1-5"; "7"; "12-40"].
Proof. reflexivity. Qed.

Example rsplit1_last_colon : rsplit1 ":" "a:b:c" = ("a:b", Some "c").
Proof. reflexivity. Qed.

Example parse_intervals_malformed :
  parse_intervals "1-" = None ∧ parse_intervals "x" = None ∧
  parse_intervals "1-2-3" = None ∧ parse_intervals "" = None ∧
  parse_intervals "0" = None ∧ parse_intervals "0-2" = None ∧
  parse_intervals "3-3" = Some [mkInterval 3 3] ∧
  parse_intervals "100-250" = Some [mkInterval 100 250].
Proof. done. Qed.

Example expand_paths_accepts :
  expand_paths sample_fs ["a.py"; "a.py:1-5,7"] =
  ([], Some ["a.py:1-5,7"; "a.py"]).
Proof. vm_compute. reflexivity. Qed.

Example loading_bar_fills :
  pbar (updates [progress_message "a" 60; progress_message "b" 70]
                LoadingHandler_init) =
  Some (tqdm.mk 100 (NumInt 100) "b" true).
Proof. vm_compute. reflexivity. Qed.

Example loading_bar_closed_stays :
  pbar (updates [progress_message "a" 100; progress_message "" (-5)]
                LoadingHandler_init) =
  Some (tqdm.mk 100 (NumInt 100) "a" true).
Proof. vm_compute. reflexivity. Qed.

Example loading_bar_bad_progress :
  LoadingHandler_update
    (StreamMessage.mk 0%N "loading" SERVER PyNone
                      (Some {["progress" := PyStr "half"]}) 0%N)
    LoadingHandler_init =
  ({| pbar := Some (tqdm.mk 100 (NumInt 0) "" false) |}, Some TypeError).
Proof. vm_compute. reflexivity. Qed.

(** [0.5 + 0.25] and [100 - 0.5] on binary64 values. *)
Example float_arithmetic :
  num_add (NumFloat (binary_normalize 53 1024 1 (-1) false))
          (NumFloat (binary_normalize 53 1024 1 (-2) false)) =
    Some (NumFloat (binary_normalize 53 1024 3 (-2) false)) ∧
  num_sub (NumInt 100) (NumFloat (binary_normalize 53 1024 1 (-1) false)) =
    Some (NumFloat (binary_normalize 53 1024 199 (-1) false)) ∧
  num_lt (NumFloat (binary_normalize 53 1024 199 (-1) false)) (NumInt 100)
    = true.
Proof. vm_compute. done. Qed.

(** ** The message bus *)

Section BroadcastFacts.

Implicit Types (b : Broadcast.t) (sid : nat) (m : StreamMessage.t).

Lemma pending_publish_nowait b sid channel m sub :
  Broadcast.subscribers b !! sid = Some sub →
  Broadcast.pending sid (Broadcast.publish_nowait channel m b) =
  Broadcast.pending sid b ++
    (if decide (Broadcast.sub_channel sub = channel) then [m] else []).
Proof.
  intros Hsub. unfold Broadcast.pending, Broadcast.publish_nowait; simpl.
  rewrite lookup_fmap, Hsub; simpl.
  unfold Broadcast.deliver; simpl.
  destruct (decide (Broadcast.sub_channel sub = channel)); simpl.
  - by rewrite fmap_app.
  - by rewrite app_nil_r.
Qed.

Lemma pending_publish_nowait_absent b sid channel m :
  Broadcast.subscribers b !! sid = None →
  Broadcast.pending sid (Broadcast.publish_nowait channel m b) = [].
Proof.
  intros Hsub. unfold Broadcast.pending, Broadcast.publish_nowait; simpl.
  by rewrite lookup_fmap, Hsub.
Qed.

Lemma listens_on_lookup b sid channel :
  Broadcast.listens_on sid channel b ↔
  ∃ sub, Broadcast.subscribers b !! sid = Some sub ∧
         Broadcast.sub_channel sub = channel.
Proof.
  unfold Broadcast.listens_on. split.
  - destruct (Broadcast.subscribers b !! sid) as [sub|] eqn:E; simpl; [|done].
    intros [= <-]. eauto.
  - intros (sub & -> & <-). done.
Qed.

Lemma listens_on_publish_nowait b sid channel ch m :
  Broadcast.listens_on sid channel b →
  Broadcast.listens_on sid channel (Broadcast.publish_nowait ch m b).
Proof.
  rewrite !listens_on_lookup. intros (sub & Hsub & Hch).
  exists (Broadcast.deliver (Broadcast.mkEvent ch m) sub). split.
  - simpl. by rewrite lookup_fmap, Hsub.
  - unfold Broadcast.deliver. by case_decide.
Qed.

Lemma keys_below_publish_nowait b ch m :
  keys_below b → keys_below (Broadcast.publish_nowait ch m b).
Proof.
  intros Hk sid. simpl. rewrite lookup_fmap, fmap_is_Some. apply Hk.
Qed.

Lemma keys_below_subscribe b ch :
  keys_below b → keys_below (Broadcast.subscribe ch b).2.
Proof.
  intros Hk sid. simpl. rewrite lookup_insert_is_Some.
  intros [<- | [_ Hin]]; [lia|]. apply Hk in Hin. lia.
Qed.

Lemma keys_below_unsubscribe b sid :
  keys_below b → keys_below (Broadcast.unsubscribe sid b).
Proof.
  intros Hk sid'. simpl. rewrite lookup_delete_is_Some.
  intros [_ Hin]. by apply Hk.
Qed.

Lemma keys_below_next_event b sid ev b' :
  keys_below b → Broadcast.next_event sid b = Some (ev, b') → keys_below b'.
Proof.
  intros Hk. unfold Broadcast.next_event.
  destruct (Broadcast.subscribers b !! sid) as [sub|] eqn:E; [|done].
  destruct (Broadcast.queue sub) as [|ev' q]; [done|].
  intros [= <- <-] sid'. simpl. rewrite lookup_insert_is_Some.
  intros [<- | [_ Hin]]; apply Hk; eauto.
Qed.

Lemma keys_below_new : keys_below Broadcast.new.
Proof. intros sid. simpl. rewrite lookup_empty. by intros [? ?]. Qed.

(** A step on another subscriber's queue leaves this one alone. *)
Lemma next_event_other b sid sid' ev b' :
  sid' ≠ sid →
  Broadcast.next_event sid' b = Some (ev, b') →
  Broadcast.subscribers b' !! sid = Broadcast.subscribers b !! sid.
Proof.
  intros Hne. unfold Broadcast.next_event.
  destruct (Broadcast.subscribers b !! sid') as [sub|]; [|done].
  destruct (Broadcast.queue sub) as [|ev' q]; [done|].
  intros [= <- <-]. simpl. by rewrite lookup_insert_ne.
Qed.

(** A step on one's own queue hands over its head. *)
Lemma next_event_own b sid channel :
  Broadcast.listens_on sid channel b →
  match Broadcast.next_event sid b with
  | Some (ev, b') =>
      Broadcast.pending sid b = Broadcast.message ev :: Broadcast.pending sid b' ∧
      Broadcast.listens_on sid channel b'
  | None => Broadcast.pending sid b = []
  end.
Proof.
  rewrite listens_on_lookup. intros (sub & Hsub & Hch).
  unfold Broadcast.next_event, Broadcast.pending. rewrite Hsub.
  destruct (Broadcast.queue sub) as [|ev q] eqn:Q; [done|].
  simpl. rewrite lookup_insert_eq. simpl. split; [done|].
  apply listens_on_lookup. eexists. simpl. rewrite lookup_insert_eq. eauto.
Qed.

End BroadcastFacts.

(** ** Runs of the stream *)

Section RunFacts.

Variable uuid4 : nat -> UUID.
Variable utcnow : nat -> datetime.

#[local] Abbreviation step_ := (step uuid4 utcnow).
#[local] Abbreviation run_ := (run uuid4 utcnow).

Lemma run_app acts1 acts2 w :
  run_ (acts1 ++ acts2) w =
  let '(os1, w1) := run_ acts1 w in
  let '(os2, w2) := run_ acts2 w1 in
  (os1 ++ os2, w2).
Proof.
  revert w. induction acts1 as [|a acts1 IH]; intros w; simpl.
  - by destruct (run_ acts2 w).
  - destruct (step_ a w) as [o w']. rewrite IH.
    destruct (run_ acts1 w') as [os1 w1]. by destruct (run_ acts2 w1).
Qed.

Lemma sent_on_app channel os1 os2 :
  sent_on channel (os1 ++ os2) = sent_on channel os1 ++ sent_on channel os2.
Proof.
  induction os1 as [|o os1 IH]; [done|].
  destruct o; simpl; try done. case_decide; simpl; by rewrite IH.
Qed.

Lemma received_by_app sid os1 os2 :
  received_by sid (os1 ++ os2) = received_by sid os1 ++ received_by sid os2.
Proof.
  induction os1 as [|o os1 IH]; [done|].
  destruct o; simpl; try done. case_decide; simpl; by rewrite IH.
Qed.

Lemma sent_on_channel channel os :
  Forall (fun m => StreamMessage.channel m = channel) (sent_on channel os).
Proof.
  induction os as [|o os IH]; simpl; [constructor|].
  destruct o; try done. case_decide; [by constructor | done].
Qed.

(** No step rewrites the history: it only grows at its end. *)
Lemma step_history a w :
  messages w.2 `prefix_of` messages (step_ a w).2.2.
Proof.
  destruct w as [c s]. destruct a; simpl; try done.
  - by apply prefix_app_r.
  - unfold recv_resume. destruct (Broadcast.next_event _ _) as [[ev b]|]; done.
  - unfold listen_resume. destruct (Broadcast.next_event _ _) as [[ev b]|]; done.
Qed.

Lemma run_history acts w :
  messages w.2 `prefix_of` messages (run_ acts w).2.2.
Proof.
  revert w. induction acts as [|a acts IH]; intros w; simpl; [done|].
  pose proof (step_history a w) as Hs.
  destruct (step_ a w) as [o w'] eqn:E. simpl in Hs.
  specialize (IH w'). destruct (run_ acts w') as [os w'']. simpl in *.
  by etrans.
Qed.

(** One step, seen from a subscriber that the step does not release. *)
Lemma step_subscriber sid channel a c s :
  keys_below (_broadcast s) →
  Broadcast.listens_on sid channel (_broadcast s) →
  releases sid a = false →
  let '(o, (c', s')) := step_ a (c, s) in
  keys_below (_broadcast s') ∧
  Broadcast.listens_on sid channel (_broadcast s') ∧
  received_by sid [o] ++ Broadcast.pending sid (_broadcast s') =
  Broadcast.pending sid (_broadcast s) ++ sent_on channel [o].
Proof.
  intros Hk Hl Hr. destruct a; simpl in *.
  - rewrite app_nil_r. done.
  - rewrite app_nil_r. done.
  - split; [by apply keys_below_publish_nowait|].
    split; [by apply listens_on_publish_nowait|].
    pose proof Hl as Hl'. apply listens_on_lookup in Hl' as (sub & Hsub & Hch).
    rewrite (pending_publish_nowait _ _ _ _ _ Hsub). rewrite Hch.
    destruct (decide (channel = channel0)) as [->|Hne].
    + by rewrite decide_True.
    + by rewrite decide_False by congruence.
  - assert (Broadcast.next_subscriber (_broadcast s) ≠ sid) as Hne.
    { apply listens_on_lookup in Hl as (sub & Hsub & _).
      assert (sid < Broadcast.next_subscriber (_broadcast s)) by (apply Hk; eauto).
      lia. }
    split; [by apply (keys_below_subscribe _ channel0)|].
    unfold Broadcast.listens_on, Broadcast.pending in *; simpl.
    rewrite lookup_insert_ne by done. rewrite app_nil_r. done.
  - apply bool_decide_eq_false in Hr. unfold recv_resume.
    destruct (Broadcast.next_event sid0 (_broadcast s)) as [[ev b]|] eqn:E; simpl.
    + pose proof (next_event_other _ sid _ _ _ Hr E) as Hsame.
      split; [by eapply keys_below_unsubscribe, keys_below_next_event|].
      rewrite decide_False by done.
      unfold Broadcast.listens_on, Broadcast.pending in *; simpl.
      rewrite lookup_delete_ne by done. rewrite Hsame, app_nil_r. done.
    + rewrite app_nil_r. done.
  - unfold listen_resume. destruct (decide (sid0 = sid)) as [->|Hne].
    + pose proof (next_event_own _ _ _ Hl) as Hown.
      destruct (Broadcast.next_event sid (_broadcast s)) as [[ev b]|] eqn:E; simpl.
      * destruct Hown as [Hp Hl'].
        split; [by eapply keys_below_next_event|]. split; [done|].
        rewrite decide_True by done. rewrite Hp, app_nil_r. done.
      * rewrite app_nil_r. done.
    + destruct (Broadcast.next_event sid0 (_broadcast s)) as [[ev b]|] eqn:E; simpl.
      * pose proof (next_event_other _ sid _ _ _ Hne E) as Hsame.
        split; [by eapply keys_below_next_event|].
        rewrite decide_False by done.
        unfold Broadcast.listens_on, Broadcast.pending in *; simpl.
        rewrite Hsame, app_nil_r. done.
      * rewrite app_nil_r. done.
  - apply bool_decide_eq_false in Hr.
    split; [by apply keys_below_unsubscribe|].
    unfold Broadcast.listens_on, Broadcast.pending in *; simpl.
    rewrite lookup_delete_ne by done. rewrite app_nil_r. done.
Qed.

Lemma run_subscriber sid channel acts c s :
  keys_below (_broadcast s) →
  Broadcast.listens_on sid channel (_broadcast s) →
  forallb (fun a => negb (releases sid a)) acts = true →
  let '(os, (c', s')) := run_ acts (c, s) in
  keys_below (_broadcast s') ∧
  Broadcast.listens_on sid channel (_broadcast s') ∧
  received_by sid os ++ Broadcast.pending sid (_broadcast s') =
  Broadcast.pending sid (_broadcast s) ++ sent_on channel os.
Proof.
  revert c s. induction acts as [|a acts IH]; intros c s Hk Hl Hr.
  - simpl. rewrite app_nil_r. done.
  - simpl in Hr. apply andb_true_iff in Hr as [Ha Hr].
    apply negb_true_iff in Ha.
    pose proof (step_subscriber sid channel a c s Hk Hl Ha) as Hs.
    cbn [run]. destruct (step_ a (c, s)) as [o [c1 s1]].
    destruct Hs as (Hk1 & Hl1 & H1).
    specialize (IH c1 s1 Hk1 Hl1 Hr).
    destruct (run_ acts (c1, s1)) as [os [c2 s2]].
    destruct IH as (Hk2 & Hl2 & H2). split; [done|]. split; [done|].
    change (o :: os) with ([o] ++ os).
    rewrite received_by_app, sent_on_app.
    rewrite <- app_assoc, H2, !app_assoc, H1. done.
Qed.

(** A consumer that keeps asking empties its queue, in queue order. *)
Lemma run_drain sid channel c s :
  Broadcast.listens_on sid channel (_broadcast s) →
  let '(os, (c', s')) :=
    run_ (replicate (length (Broadcast.pending sid (_broadcast s)))
                    (ListenResume sid)) (c, s) in
  received_by sid os = Broadcast.pending sid (_broadcast s) ∧
  Broadcast.pending sid (_broadcast s') = [] ∧
  sent_on channel os = [] ∧ messages s' = messages s.
Proof.
  remember (length (Broadcast.pending sid (_broadcast s))) as k eqn:Hk.
  revert s Hk. induction k as [|k IH]; intros s Hk Hl; simpl.
  - symmetry in Hk. apply length_zero_iff_nil in Hk. by rewrite Hk.
  - unfold listen_resume. pose proof (next_event_own _ _ _ Hl) as Hown.
    destruct (Broadcast.next_event sid (_broadcast s)) as [[ev b]|].
    + destruct Hown as [Hp Hl']. rewrite Hp in Hk. simpl in Hk.
      injection Hk as Hk.
      specialize (IH {| messages := messages s; _broadcast := b |} Hk Hl').
      destruct (run _ _ _ _) as [os [c' s']]; simpl in *.
      destruct IH as (Hr & He & Hs & Hm).
      rewrite decide_True by done. rewrite Hr, Hp. done.
    + rewrite Hown in Hk. done.
Qed.

End RunFacts.

Lemma pending_send uuid4 utcnow data source channel kwargs c s sid :
  let '(m, _, s') := send uuid4 utcnow data source channel kwargs c s in
  Broadcast.pending sid (_broadcast s') =
  Broadcast.pending sid (_broadcast s) ++
    (if bool_decide (Broadcast.listens_on sid channel (_broadcast s))
     then [m] else []).
Proof.
  simpl.
  destruct (Broadcast.subscribers (_broadcast s) !! sid) as [sub|] eqn:E.
  - rewrite (pending_publish_nowait _ _ _ _ _ E).
    destruct (decide (Broadcast.sub_channel sub = channel)) as [Heq|Hne].
    + rewrite bool_decide_eq_true_2; [done|].
      apply listens_on_lookup. eauto.
    + rewrite bool_decide_eq_false_2; [done|].
      rewrite listens_on_lookup. intros (sub' & Hs & Hc). congruence.
  - rewrite (pending_publish_nowait_absent _ _ _ _ E).
    rewrite bool_decide_eq_false_2.
    + unfold Broadcast.pending. by rewrite E.
    + rewrite listens_on_lookup. intros (sub' & Hs & Hc). congruence.
Qed.

(** C3. Every call of [SessionStream.send] puts exactly one new message at
    the end of the history and publishes it in the same step: the call is
    defined in every state of the subscribers, no subscription appears or
    disappears, and the only change to a subscriber is the new message at
    the end of its queue when it listens on that channel.  Along every
    run of stream operations ([start], [stop], [send], [recv], [listen])
    the history before is a prefix of the history after: nothing in it is
    changed, removed or reordered. *)
Theorem send_appends_one_and_history_is_append_only :
  ∀ (uuid4 : nat -> UUID) (utcnow : nat -> datetime),
    (∀ data source channel kwargs c s,
        let '(m, _, s') := send uuid4 utcnow data source channel kwargs c s in
        messages s' = messages s ++ [m] ∧
        dom (Broadcast.subscribers (_broadcast s')) =
        dom (Broadcast.subscribers (_broadcast s)) ∧
        ∀ sid,
          Broadcast.pending sid (_broadcast s') =
          Broadcast.pending sid (_broadcast s) ++
            (if bool_decide (Broadcast.listens_on sid channel (_broadcast s))
             then [m] else [])) ∧
    (∀ acts w, messages w.2 `prefix_of` messages (run uuid4 utcnow acts w).2.2).
Proof.
  intros uuid4 utcnow. split.
  - intros data source channel kwargs c s.
    pose proof (pending_send uuid4 utcnow data source channel kwargs c s) as Hp.
    simpl in *. split; [done|]. split; [apply dom_fmap_L | exact Hp].
  - apply run_history.
Qed.

(** C7. The message built by [SessionStream.send] has the six fields of
    the wire shape; its channel, source, data and extra map are the
    caller's arguments, its id is the value that [uuid4()] hands out
    during this call (the count of draws goes up by one), its timestamp
    is the clock reading of this call, and this message, which is the
    last of the history, is what the call returns. *)
Theorem send_builds_wire_shape :
  ∀ (uuid4 : nat -> UUID) (utcnow : nat -> datetime)
    data source channel kwargs c s,
    let '(m, c', s') := send uuid4 utcnow data source channel kwargs c s in
    m = StreamMessage.mk (uuid4 (uuid_draws c)) channel source data
                         (Some kwargs) (utcnow (clock_reads c)) ∧
    StreamMessage.channel m = channel ∧
    StreamMessage.source m = source ∧
    StreamMessage.data m = data ∧
    StreamMessage.extra m = Some kwargs ∧
    StreamMessage.id m = uuid4 (uuid_draws c) ∧
    uuid_draws c' = S (uuid_draws c) ∧
    last (messages s') = Some m.
Proof.
  intros. simpl. repeat split; try done. apply last_snoc.
Qed.

(** C4. A consumer of [listen(channel)] that has subscribed and keeps its
    subscription: over any run of stream operations, what it has received
    followed by what waits in its queue is exactly the list of messages
    sent on [channel] during the run, in sending order; it receives no
    message of another channel; and once it has taken what waits, it has
    received exactly the messages sent on [channel]. *)
Theorem listen_receives_its_channel_in_order :
  ∀ (uuid4 : nat -> UUID) (utcnow : nat -> datetime)
    channel acts c s sid s0 os c1 s1,
    keys_below (_broadcast s) →
    enter_subscription channel s = (sid, s0) →
    forallb (fun a => negb (releases sid a)) acts = true →
    run uuid4 utcnow acts (c, s0) = (os, (c1, s1)) →
    received_by sid os ++ Broadcast.pending sid (_broadcast s1) =
      sent_on channel os ∧
    Forall (fun m => StreamMessage.channel m = channel) (received_by sid os) ∧
    ∃ os' w',
      run uuid4 utcnow
          (replicate (length (Broadcast.pending sid (_broadcast s1)))
                     (ListenResume sid)) (c1, s1) = (os', w') ∧
      received_by sid (os ++ os') = sent_on channel (os ++ os') ∧
      Broadcast.pending sid (_broadcast w'.2) = [].
Proof.
  intros uuid4 utcnow channel acts c s sid s0 os c1 s1 Hk Hsub Hrel Hrun.
  unfold enter_subscription in Hsub. simpl in Hsub. injection Hsub as <- <-.
  set (b0 := (Broadcast.subscribe channel (_broadcast s)).2).
  assert (keys_below b0) as Hk0 by (by apply keys_below_subscribe).
  assert (Broadcast.listens_on (Broadcast.next_subscriber (_broadcast s))
            channel b0) as Hl0.
  { unfold Broadcast.listens_on, b0. simpl. by rewrite lookup_insert_eq. }
  assert (Broadcast.pending (Broadcast.next_subscriber (_broadcast s)) b0 = [])
    as Hp0.
  { unfold Broadcast.pending, b0. simpl. by rewrite lookup_insert_eq. }
  pose proof (run_subscriber uuid4 utcnow _ channel acts c
                {| messages := messages s; _broadcast := b0 |} Hk0 Hl0 Hrel)
    as Hinv.
  change (run uuid4 utcnow acts
            (c, {| messages := messages s; _broadcast := b0 |}) =
          (os, (c1, s1))) in Hrun.
  rewrite Hrun in Hinv. destruct Hinv as (Hk1 & Hl1 & Heq).
  simpl in Heq. rewrite Hp0 in Heq. simpl in Heq.
  split; [done|]. split.
  { pose proof (sent_on_channel channel os) as Hall.
    rewrite <- Heq in Hall. by apply Forall_app in Hall as [? _]. }
  pose proof (run_drain uuid4 utcnow _ channel c1 s1 Hl1) as Hd.
  destruct (run uuid4 utcnow _ (c1, s1)) as [os' [c2 s2]].
  destruct Hd as (Hr & He & Hs & _).
  exists os', (c2, s2). split; [done|]. split; [|done].
  by rewrite received_by_app, sent_on_app, Hr, Hs, app_nil_r.
Qed.

Lemma listen_receives_its_channel_in_order_witness :
  let w := run sample_uuid4 sample_utcnow sample_acts
               (mkClock 0 0, (enter_subscription "c" SessionStream_init).2) in
  received_by 0 w.1 ++ Broadcast.pending 0 (_broadcast w.2.2) =
  sent_on "c" w.1.
Proof.
  exact (proj1 (listen_receives_its_channel_in_order
                  sample_uuid4 sample_utcnow "c" sample_acts (mkClock 0 0)
                  SessionStream_init 0 _ _ _ _
                  keys_below_new eq_refl eq_refl eq_refl)).
Defined.

(** ** Reply channels *)

Lemma hex_digit_inj (d1 d2 : N) :
  (d1 < 16)%N → (d2 < 16)%N → hex_digit d1 = hex_digit d2 → d1 = d2.
Proof.
  intros H1 H2.
  rewrite <- (N2Nat.id d1), <- (N2Nat.id d2).
  assert (N.to_nat d1 < 16) as Hn1 by lia.
  assert (N.to_nat d2 < 16) as Hn2 by lia.
  generalize dependent (N.to_nat d2). generalize dependent (N.to_nat d1).
  intros n1 Hn1 n2 Hn2.
  do 16 (destruct n1 as [|n1];
         [ clear Hn1;
           do 16 (destruct n2 as [|n2];
                  [ vm_compute; intros E; first [reflexivity | discriminate E]
                  | ]);
           lia
         | ]).
  lia.
Qed.

Lemma length_hex_fixed w n : length (hex_fixed w n) = w.
Proof.
  revert n. induction w as [|w IH]; intros n; simpl; [done|].
  rewrite length_app, IH. simpl. lia.
Qed.

Lemma hex_fixed_inj w (n m : N) :
  (n < 16 ^ N.of_nat w)%N → (m < 16 ^ N.of_nat w)%N →
  hex_fixed w n = hex_fixed w m → n = m.
Proof.
  revert n m. induction w as [|w IH]; intros n m Hn Hm H.
  - simpl in Hn, Hm. lia.
  - simpl in H. apply app_inj_tail in H as [Hhi Hlo].
    rewrite Nat2N.inj_succ, N.pow_succ_r' in Hn, Hm.
    assert (n / 16 = m / 16)%N as Hq.
    { apply IH; [| |done]; apply N.Div0.div_lt_upper_bound; lia. }
    assert (n mod 16 = m mod 16)%N as Hr.
    { apply hex_digit_inj; [| |done]; apply N.mod_lt; lia. }
    rewrite (N.Div0.div_mod n 16), (N.Div0.div_mod m 16). congruence.
Qed.

Lemma hyphenate_inj (a b : list ascii) :
  length a = 32 → length b = 32 → hyphenate a = hyphenate b → a = b.
Proof.
  intros Ha Hb H.
  do 32 (destruct a as [|? a]; [discriminate Ha|]).
  destruct a; [|discriminate Ha].
  do 32 (destruct b as [|? b]; [discriminate Hb|]).
  destruct b; [|discriminate Hb].
  cbv [hyphenate take drop app] in H. by simplify_eq.
Qed.

Lemma uuid_str_inj (x y : UUID) :
  (x < uuid_bound)%N → (y < uuid_bound)%N → uuid_str x = uuid_str y → x = y.
Proof.
  intros Hx Hy H. unfold uuid_str in H.
  apply (f_equal list_ascii_of_string) in H.
  rewrite !list_ascii_of_string_of_list_ascii in H.
  apply hyphenate_inj in H; [|apply length_hex_fixed..].
  apply (hex_fixed_inj 32); [exact Hx | exact Hy | exact H].
Qed.

Lemma string_app_cancel (p a b : string) : p +:+ a = p +:+ b → a = b.
Proof.
  induction p as [|ch p IH]; simpl; [done|].
  intros [= H]. by apply IH.
Qed.

(** Distinct requests have distinct reply channels. *)
Lemma reply_channel_inj (x y : UUID) :
  (x < uuid_bound)%N → (y < uuid_bound)%N →
  reply_channel x = reply_channel y → x = y.
Proof.
  intros Hx Hy H. apply uuid_str_inj; [exact Hx | exact Hy |].
  unfold reply_channel in H. exact (string_app_cancel _ _ _ H).
Qed.

(** ** The input handler *)

Lemma recv_resume_empty s sid :
  Broadcast.pending sid (_broadcast s) = [] → recv_resume sid s = None.
Proof.
  unfold recv_resume, Broadcast.next_event, Broadcast.pending.
  destruct (Broadcast.subscribers (_broadcast s) !! sid) as [sub|]; [|done].
  destruct (Broadcast.queue sub); [done|discriminate].
Qed.

Lemma recv_resume_head s sid m rest :
  Broadcast.pending sid (_broadcast s) = m :: rest →
  ∃ s', recv_resume sid s = Some (m, s') ∧
        Broadcast.subscribers (_broadcast s') !! sid = None ∧
        recv_resume sid s' = None ∧
        messages s' = messages s.
Proof.
  unfold recv_resume, Broadcast.next_event, Broadcast.pending.
  destruct (Broadcast.subscribers (_broadcast s) !! sid) as [sub|]; [|done].
  destruct (Broadcast.queue sub) as [|ev q]; [done|].
  simpl. intros [= <- _]. eexists. split; [done|]. simpl.
  rewrite lookup_delete_eq. done.
Qed.

Lemma handler_run_returned uuid4 utcnow inputs client c s :
  handler_run uuid4 utcnow inputs Returned client c s = (Returned, client, c, s).
Proof. induction inputs as [|i inputs IH]; simpl; done. Qed.

(** One answer of the client, seen from the subscribers. *)
Lemma answer_reaches_only_its_requester :
  ∀ (uuid4 : nat -> UUID) (utcnow : nat -> datetime)
    request other user_input client c s sidx sidy,
    user_input ≠ "q" →
    (StreamMessage.id request < uuid_bound)%N →
    (StreamMessage.id other < uuid_bound)%N →
    StreamMessage.id request ≠ StreamMessage.id other →
    Broadcast.listens_on sidx (reply_channel (StreamMessage.id request))
                         (_broadcast s) →
    Broadcast.listens_on sidy (reply_channel (StreamMessage.id other))
                         (_broadcast s) →
    Broadcast.pending sidx (_broadcast s) = [] →
    let s' :=
      (answer_input_request uuid4 utcnow request user_input client c s).2 in
    ∃ reply,
      messages s' = messages s ++ [reply] ∧
      StreamMessage.channel reply = reply_channel (StreamMessage.id request) ∧
      StreamMessage.data reply = PyStr user_input ∧
      StreamMessage.source reply = CLIENT ∧
      (∀ sid,
         Broadcast.pending sid (_broadcast s') =
         Broadcast.pending sid (_broadcast s) ++
           (if bool_decide
                 (Broadcast.listens_on
                    sid (reply_channel (StreamMessage.id request))
                    (_broadcast s))
            then [reply] else [])) ∧
      Broadcast.pending sidy (_broadcast s') =
        Broadcast.pending sidy (_broadcast s) ∧
      ∃ s'',
        recv_resume sidx s' = Some (reply, s'') ∧
        recv_resume sidx s'' = None ∧
        Broadcast.subscribers (_broadcast s'') !! sidx = None.
Proof.
  intros uuid4 utcnow request other user_input client c s sidx sidy
         Hq Hx Hy Hne Hlx Hly Hpx.
  unfold answer_input_request. rewrite decide_False by exact Hq.
  pose proof (pending_send uuid4 utcnow (PyStr user_input) CLIENT
                (reply_channel (StreamMessage.id request)) ∅ c s) as Hp.
  unfold send in *. cbv beta iota zeta in *. cbn [fst snd].
  set (reply := StreamMessage.mk _ _ _ _ _ _) in *.
  set (s' := mkSessionStream _ _) in *.
  exists reply. split; [reflexivity|]. split; [reflexivity|].
  split; [reflexivity|]. split; [reflexivity|].
  split; [exact Hp|]. split.
  - rewrite Hp. rewrite bool_decide_eq_false_2; [by rewrite app_nil_r|].
    intros Hl. unfold Broadcast.listens_on in Hl, Hly.
    rewrite Hly in Hl. apply (inj Some) in Hl.
    apply Hne. symmetry. exact (reply_channel_inj _ _ Hy Hx Hl).
  - specialize (Hp sidx). rewrite Hpx in Hp.
    rewrite bool_decide_eq_true_2 in Hp by exact Hlx.
    destruct (recv_resume_head s' sidx reply [] Hp)
      as (s'' & Hr & Hgone & Hagain & _).
    exists s''. split; [exact Hr|]. split; [exact Hagain | exact Hgone].
Qed.

(** C9. When the user answers an input request with exactly [q], the
    handler sets [_should_exit] and returns; neither that step nor any
    later wake-up of the handler task changes the stream, so no message is
    published on [input_request:{id}], and a server waiting in [recv] on
    that channel with nothing queued still has nothing to receive. *)
Theorem quit_publishes_no_reply :
  ∀ (uuid4 : nat -> UUID) (utcnow : nat -> datetime)
    request client c s inputs sid,
    Broadcast.listens_on sid (reply_channel (StreamMessage.id request))
                         (_broadcast s) →
    Broadcast.pending sid (_broadcast s) = [] →
    answer_input_request uuid4 utcnow request "q" client c s =
      (Returned,
       {| _should_exit := true; _force_exit := _force_exit client |}, c, s) ∧
    let '(task, client', c', s') :=
      handler_run uuid4 utcnow (Some "q" :: inputs) (AwaitingPrompt request)
                  client c s in
    task = Returned ∧ _should_exit client' = true ∧ c' = c ∧ s' = s ∧
    messages s' = messages s ∧
    Broadcast.pending sid (_broadcast s') = [] ∧
    recv_resume sid s' = None.
Proof.
  intros uuid4 utcnow request client c s inputs sid Hl Hp.
  split; [done|]. simpl. rewrite handler_run_returned.
  repeat split; try done. by apply recv_resume_empty.
Qed.

Lemma quit_publishes_no_reply_witness :
  answer_input_request sample_uuid4 sample_utcnow sample_first.1.1.1 "q"
                       TerminalClient_init sample_first.1.2 sample_first.2 =
  (Returned, {| _should_exit := true; _force_exit := false |},
   sample_first.1.2, sample_first.2).
Proof.
  exact (proj1 (quit_publishes_no_reply
                  sample_uuid4 sample_utcnow sample_first.1.1.1
                  TerminalClient_init sample_first.1.2 sample_first.2
                  [None; Some "y"] sample_first.1.1.2 eq_refl eq_refl)).
Defined.

(** ** The loading bar *)

Lemma num_min_int (k r : Z) :
  num_min (NumInt k) (NumInt r) = NumInt (Z.min k r).
Proof.
  unfold num_min, num_lt. simpl.
  destruct (Z.compare_spec r k); f_equal; lia.
Qed.

Lemma num_eq_int (a b : Z) : num_eq (NumInt a) (NumInt b) = bool_decide (a = b).
Proof.
  unfold num_eq. simpl. destruct (Z.compare_spec a b).
  - by rewrite bool_decide_eq_true_2.
  - by rewrite bool_decide_eq_false_2 by lia.
  - by rewrite bool_decide_eq_false_2 by lia.
Qed.

Lemma integral_progress m :
  integral m →
  match progress_of m with
  | Some v =>
      match as_number v with
      | Some k => ∃ z, k = NumInt z ∧ progress_value m = Some z
      | None => progress_value m = None
      end
  | None => progress_value m = None
  end.
Proof.
  unfold integral, progress_value.
  destruct (progress_of m) as [[| b | z | f | t]|]; simpl; eauto.
  done.
Qed.

(** One call on a bar that counts in integers, for a message that
    carries no float. *)
Lemma update_integral m h :
  integral m → bar_ok h →
  bar_ok (LoadingHandler_update m h).1 ∧
  ∃ z, bar_count h = NumInt z ∧ (z ≤ 100)%Z ∧
       (bar_closed h = true ↔ z = 100%Z) ∧
       bar_count (LoadingHandler_update m h).1 =
       NumInt (z + (if bar_closed h then 0
                    else match progress_value m with
                         | Some k => Z.min k (100 - z)
                         | None => 0
                         end)).
Proof.
  intros Hint Hok. unfold LoadingHandler_update.
  set (text := match StreamMessage.data m with PyStr s => s | _ => "" end).
  set (p0 := match pbar h with
             | Some p => if decide (text = "") then p
                         else tqdm.set_description text p
             | None => tqdm.new 100 text
             end).
  assert (∃ z, tqdm.total p0 = 100%Z ∧ tqdm.n p0 = NumInt z ∧ (z ≤ 100)%Z ∧
               (tqdm.disable p0 = true ↔ z = 100%Z) ∧
               bar_count h = NumInt z ∧ bar_closed h = tqdm.disable p0)
    as (z & Ht & Hn & Hz & Hc & Hcount & Hclosed).
  { unfold bar_ok, bar_count, bar_closed in *. subst p0.
    destruct (pbar h) as [p|].
    - destruct Hok as (Ht & z & Hn & Hz & Hc). exists z.
      case_decide; simpl; done.
    - exists 0%Z. simpl. repeat split; try done; lia. }
  clearbody p0. rewrite Hclosed, Hcount.
  pose proof (integral_progress m Hint) as Hp.
  assert (z ≤ 100 ∧ (tqdm.disable p0 = true ↔ z = 100))%Z as Hfacts by done.
  assert (∀ q zq,
            tqdm.total q = 100%Z → tqdm.n q = NumInt zq → (zq ≤ 100)%Z →
            (tqdm.disable q = true ↔ zq = 100%Z) →
            bar_ok {| pbar := Some q |} ∧
            bar_count {| pbar := Some q |} = NumInt zq) as Hbar.
  { intros q zq Hqt Hqn Hqz Hqc. unfold bar_ok, bar_count. simpl.
    split; [|exact Hqn]. split; [exact Hqt|]. by exists zq. }
  destruct (progress_of m) as [v|]; [destruct (as_number v) as [k|]|].
  - destruct Hp as (d & -> & ->). rewrite Ht, Hn. simpl.
    rewrite num_min_int. unfold tqdm.update. rewrite Hn.
    destruct (tqdm.disable p0) eqn:Ed.
    + assert (z = 100%Z) as -> by (by apply Hc).
      rewrite Hn, Ht, num_eq_int. rewrite bool_decide_eq_true_2 by done.
      simpl.
      destruct (Hbar (tqdm.close p0) 100%Z) as [Hb1 Hb2]; simpl; try done.
      split; [exact Hb1|]. exists 100%Z. rewrite Hb2. done.
    + simpl. rewrite num_eq_int, Ht.
      assert (z ≠ 100%Z) as Hz' by (intros E; apply Hc in E; discriminate).
      set (z' := (z + Z.min d (100 - z))%Z).
      assert (z' ≤ 100)%Z as Hz'le by lia.
      case_bool_decide as Hfull; simpl.
      * destruct (Hbar (tqdm.close
                          {| tqdm.total := 100; tqdm.n := NumInt z';
                             tqdm.desc := tqdm.desc p0;
                             tqdm.disable := false |}) z') as [Hb1 Hb2];
          simpl; try done.
        split; [exact Hb1|]. exists z. rewrite Hb2.
        split; [done|]. split; [lia|]. split; [|done].
        split; [discriminate | done].
      * destruct (Hbar {| tqdm.total := 100; tqdm.n := NumInt z';
                          tqdm.desc := tqdm.desc p0;
                          tqdm.disable := false |} z') as [Hb1 Hb2];
          simpl; try done.
        split; [exact Hb1|]. exists z. rewrite Hb2.
        split; [done|]. split; [lia|]. split; [|done].
        split; [discriminate | done].
  - rewrite Hp. simpl.
    destruct (Hbar p0 z) as [Hb1 Hb2]; try done.
    split; [exact Hb1|]. exists z. rewrite Hb2.
    split; [done|]. split; [lia|]. split; [exact Hc|].
    destruct (tqdm.disable p0); f_equal; lia.
  - rewrite Hp. simpl.
    destruct (Hbar p0 z) as [Hb1 Hb2]; try done.
    split; [exact Hb1|]. exists z. rewrite Hb2.
    split; [done|]. split; [lia|]. split; [exact Hc|].
    destruct (tqdm.disable p0); f_equal; lia.
Qed.

Lemma updates_bar_ok ms h :
  Forall integral ms → bar_ok h → bar_ok (updates ms h).
Proof.
  intros Hall. revert h. induction Hall as [|m ms Hm _ IH]; intros h Hok;
    simpl; [done|].
  apply IH. by apply update_integral.
Qed.

(** C10, as amended.  Whatever messages [LoadingHandler.update] is called
    with, as long as none carries a float as its progress, the count of
    the bar is an integer that stays at or below its total of 100, and the
    bar is closed exactly when the count equals the total.  Each call adds
    to the count the smaller of the message's progress and what is left up
    to the total (nothing when the message has no progress, or the bar is
    already closed). *)
Theorem loading_bar_stays_within_total :
  ∀ ms : list StreamMessage.t,
    Forall integral ms →
    let h := updates ms LoadingHandler_init in
    bar_ok h ∧
    ∃ z, bar_count h = NumInt z ∧ (z ≤ 100)%Z ∧
         (bar_closed h = true ↔ z = 100%Z) ∧
         ∀ m, integral m →
           bar_count (LoadingHandler_update m h).1 =
           NumInt (z + (if bar_closed h then 0
                        else match progress_value m with
                             | Some k => Z.min k (100 - z)
                             | None => 0
                             end)).
Proof.
  intros ms Hall h.
  assert (bar_ok h) as Hok by (apply updates_bar_ok; [exact Hall | exact I]).
  split; [exact Hok|].
  destruct (update_integral (progress_message "" 0) h I Hok)
    as (_ & z & Hz & Hle & Hiff & _).
  exists z. split; [exact Hz|]. split; [exact Hle|]. split; [exact Hiff|].
  intros m Hm. destruct (update_integral m h Hm Hok) as (_ & z' & Hz' & _ & _ & Hc).
  rewrite Hz in Hz'. injection Hz' as <-. exact Hc.
Qed.

Lemma loading_bar_stays_within_total_witness :
  bar_ok (updates [progress_message "a" 60; progress_message "b" (-70);
                   progress_message "" 200] LoadingHandler_init).
Proof.
  refine (proj1 (loading_bar_stays_within_total
                   [progress_message "a" 60; progress_message "b" (-70);
                    progress_message "" 200] _)).
  repeat constructor.
Defined.

(** C10, as stated, fails on floats: after a progress of [-28.3] and then
    one of [1000.0] the count is [100.00000000000001], above the total,
    and the bar is not closed. *)
Lemma loading_bar_float_overshoot :
  let h := updates [float_progress_message (-7965741840911565) 48;
                    float_progress_message 1000 0] LoadingHandler_init in
  bar_count h = NumFloat (binary_normalize 53 1024 7036874417766401 (-46) false) ∧
  num_lt (NumInt 100) (bar_count h) = true ∧
  bar_closed h = false.
Proof. vm_compute. done. Qed.

(** ** Interval literals *)

Lemma parse_range_ordered s :
  match parse_range s with
  | Some i => (interval_start i ≤ interval_end i)%N
  | None => True
  end.
Proof.
  unfold parse_range.
  destruct (split_on "-" s) as [|a [|b [|? ?]]]; try exact I.
  - destruct (parse_number a); [|exact I].
    case_decide; simpl; [lia | exact I].
  - destruct (parse_number a), (parse_number b); try exact I.
    case_decide; simpl; [lia | exact I].
Qed.

Lemma parse_intervals_ordered s :
  match parse_intervals s with
  | Some l => Forall (fun i => (interval_start i ≤ interval_end i)%N) l
  | None => True
  end.
Proof.
  unfold parse_intervals.
  destruct (mapM parse_range (split_on "," s)) as [l|] eqn:E; [|exact I].
  apply mapM_Some in E.
  induction E as [|piece i pieces l Hp _ IH]; constructor; [|exact IH].
  pose proof (parse_range_ordered piece) as Ho. by rewrite Hp in Ho.
Qed.

(** *** The grammar of ranges *)

Lemma digit_value_char d : (d < 10)%N → digit_value (digit_char d) = Some d.
Proof.
  intros Hd. unfold digit_value, digit_char.
  rewrite N_ascii_embedding by lia.
  rewrite decide_True by lia. f_equal. lia.
Qed.

Lemma digit_value_inv ch d :
  digit_value ch = Some d → (d < 10)%N ∧ ch = digit_char d.
Proof.
  unfold digit_value, digit_char. case_decide as H; [|done].
  intros [= <-]. split; [lia|].
  replace (48 + (N_of_ascii ch - 48))%N with (N_of_ascii ch) by lia.
  by rewrite ascii_N_embedding.
Qed.

Lemma digits_value_text acc ds :
  Forall (fun d => (d < 10)%N) ds →
  digits_value acc (digits_text ds) =
  Some (foldl (fun acc d => (10 * acc + d)%N) acc ds).
Proof.
  intros H. revert acc. induction H as [|d ds Hd _ IH]; intros acc; [done|].
  unfold digits_text in *. simpl. rewrite digit_value_char by done. apply IH.
Qed.

Lemma digits_value_inv acc s n :
  digits_value acc s = Some n →
  ∃ ds, Forall (fun d => (d < 10)%N) ds ∧ s = digits_text ds ∧
        n = foldl (fun acc d => (10 * acc + d)%N) acc ds.
Proof.
  revert acc. induction s as [|ch s IH]; intros acc; simpl.
  - intros [= <-]. by exists [].
  - destruct (digit_value ch) as [d|] eqn:E; [|done].
    apply digit_value_inv in E as [Hd ->].
    intros (ds & Hds & -> & ->)%IH.
    exists (d :: ds). split; [by constructor|]. done.
Qed.

Lemma parse_number_digits s n :
  parse_number s = Some n ↔
  ∃ ds, is_digits ds ∧ s = digits_text ds ∧ n = digits_number ds.
Proof.
  split.
  - destruct s as [|ch s]; [done|]. unfold parse_number.
    intros (ds & Hds & Hs & ->)%digits_value_inv.
    exists ds. split; [|done]. split; [|done].
    intros ->. discriminate Hs.
  - intros (ds & [Hne Hds] & -> & ->).
    destruct ds as [|d ds]; [done|]. unfold parse_number.
    change (digits_text (d :: ds))
      with (String (digit_char d) (digits_text ds)) at 1.
    change (String (digit_char d) (digits_text ds))
      with (digits_text (d :: ds)).
    by apply digits_value_text.
Qed.

Lemma split_on_join sep s :
  String.concat (String sep "") (split_on sep s) = s.
Proof.
  induction s as [|ch s IH]; [done|]. cbn [split_on].
  case_decide as Hch.
  - subst ch. destruct (split_on sep s) as [|piece pieces] eqn:E.
    + simpl in *. by subst s.
    + change (String.concat (String sep "") ("" :: piece :: pieces))
        with (String sep (String.concat (String sep "") (piece :: pieces))).
      by rewrite IH.
  - destruct (split_on sep s) as [|piece pieces] eqn:E.
    + simpl in *. by subst s.
    + destruct pieces as [|piece' pieces]; simpl in *; by subst s.
Qed.

Lemma split_on_whole sep s :
  sep ∉ list_ascii_of_string s → split_on sep s = [s].
Proof.
  induction s as [|ch s IH]; [done|]. simpl.
  rewrite not_elem_of_cons. intros [Hne Hs].
  rewrite decide_False by done. by rewrite IH.
Qed.

Lemma split_on_first sep a b :
  sep ∉ list_ascii_of_string a →
  split_on sep (a +:+ String sep b) = a :: split_on sep b.
Proof.
  induction a as [|ch a IH]; simpl.
  - intros _. by rewrite decide_True.
  - rewrite not_elem_of_cons. intros [Hne Ha].
    rewrite decide_False by done. by rewrite IH.
Qed.

Lemma digits_text_no_char ds (ch : ascii) :
  Forall (fun d => (d < 10)%N) ds →
  (N_of_ascii ch < 48)%N →
  ch ∉ list_ascii_of_string (digits_text ds).
Proof.
  intros Hds Hch. unfold digits_text.
  rewrite list_ascii_of_string_of_list_ascii.
  intros (d & -> & Hd)%list_elem_of_fmap.
  rewrite Forall_forall in Hds. apply Hds in Hd.
  unfold digit_char in Hch. rewrite N_ascii_embedding in Hch; lia.
Qed.

Lemma parse_range_shape s i : parse_range s = Some i ↔ range_shape s i.
Proof.
  split.
  - unfold parse_range. pose proof (split_on_join "-" s) as Hjoin.
    destruct (split_on "-" s) as [|a [|b [|? ?]]]; try done.
    + simpl in Hjoin. subst a.
      destruct (parse_number s) as [k|] eqn:E; [|done].
      case_decide; [|done]. intros [= <-].
      apply parse_number_digits in E as (ds & Hds & -> & ->).
      by constructor.
    + simpl in Hjoin. subst s.
      destruct (parse_number a) as [k|] eqn:Ea; [|done].
      destruct (parse_number b) as [m|] eqn:Eb; [|done].
      case_decide as Hkm; [|done]. intros [= <-].
      apply parse_number_digits in Ea as (da & Hda & -> & ->).
      apply parse_number_digits in Eb as (db & Hdb & -> & ->).
      destruct Hkm. by constructor.
  - intros [ds Hds Hpos | a b Ha Hb Hpos Hle]; unfold parse_range.
    + rewrite split_on_whole
        by (apply digits_text_no_char; [apply Hds | vm_compute; done]).
      assert (parse_number (digits_text ds) = Some (digits_number ds)) as ->
        by (apply parse_number_digits; eauto).
      by rewrite decide_True.
    + rewrite split_on_first
        by (apply digits_text_no_char; [apply Ha | vm_compute; done]).
      rewrite split_on_whole
        by (apply digits_text_no_char; [apply Hb | vm_compute; done]).
      assert (parse_number (digits_text a) = Some (digits_number a)) as ->
        by (apply parse_number_digits; eauto).
      assert (parse_number (digits_text b) = Some (digits_number b)) as ->
        by (apply parse_number_digits; eauto).
      by rewrite decide_True.
Qed.

(** The list of invalid paths only grows along the loop. *)
Lemma expand_loop_invalid_grows fs paths globbed invalid :
  ∃ more, (expand_loop fs paths globbed invalid).2 = invalid ++ more.
Proof.
  revert globbed invalid.
  induction paths as [|path paths IH]; intros globbed invalid; simpl.
  - exists []. by rewrite app_nil_r.
  - destruct (glob fs path) as [|? ?]; [|apply IH].
    destruct (rsplit1 ":" path) as [p rest].
    destruct (path_exists fs p && truthy _); [apply IH|].
    destruct (IH globbed (invalid ++ [path])) as [more ->].
    exists (path :: more). by rewrite <- app_assoc.
Qed.

(** A path that matches no file and whose range is rejected ends up in
    the list of invalid paths. *)
Lemma expand_loop_rejects fs before after path p r globbed invalid :
  rsplit1 ":" path = (p, Some r) →
  parse_intervals r = None →
  glob fs path = [] →
  (expand_loop fs (before ++ path :: after) globbed invalid).2 ≠ [].
Proof.
  intros Hsplit Hrej Hglob. revert globbed invalid.
  induction before as [|q before IH]; intros globbed invalid; simpl.
  - rewrite Hglob, Hsplit, Hrej. simpl. rewrite andb_false_r.
    destruct (expand_loop_invalid_grows fs after globbed (invalid ++ [path]))
      as [more ->].
    rewrite <- app_assoc. simpl. by destruct invalid.
  - destruct (glob fs q) as [|? ?]; [|apply IH].
    destruct (rsplit1 ":" q) as [p' rest].
    destruct (path_exists fs p' && truthy _); apply IH.
Qed.

Lemma expand_paths_exit fs paths :
  (expand_loop fs paths ∅ []).2 ≠ [] →
  ∃ invalid,
    expand_paths fs paths =
    ([Print "The following paths do not exist:";
      Print (String.concat (String newline "") invalid);
      SysExit], None).
Proof.
  unfold expand_paths.
  destruct (expand_loop fs paths ∅ []) as [globbed invalid]. simpl.
  destruct invalid as [|q invalid]; [done|]. intros _. by eexists.
Qed.

(** C6. The text after the colon of [path[:range[,range]*]] is cut at its
    commas and every piece is read as a range.  A piece is accepted
    exactly when it is a number [N] of at least 1, which gives [(N,N)], or
    two numbers [N-M] with [1 ≤ N ≤ M], which gives [(N,M)]; every other
    piece, and with it the whole literal, is rejected.  So [1-5,7,12-40]
    gives [(1,5),(7,7),(12,40)] and [5-1] is rejected.  A path that
    matches no file and whose range is rejected makes [expand_paths] print
    it and exit, so [run_cli] ends before the client, and with it any
    network call, is started. *)
Theorem interval_literals_parse_or_are_rejected :
  ∀ (fs : FileSystem) (before after exclude_paths : list string)
    (path p r : string),
    rsplit1 ":" path = (p, Some r) →
    parse_intervals r = None →
    glob fs path = [] →
    parse_intervals "1-5,7,12-40" =
      Some [mkInterval 1 5; mkInterval 7 7; mkInterval 12 40] ∧
    rsplit1 ":" "a.py:5-1" = ("a.py", Some "5-1") ∧
    parse_intervals "5-1" = None ∧
    (∀ s i, parse_range s = Some i ↔ range_shape s i) ∧
    (∀ s, parse_intervals s = mapM parse_range (split_on "," s) ∧
          String.concat "," (split_on "," s) = s) ∧
    (∀ s, match parse_intervals s with
          | Some l => Forall (fun i => (interval_start i ≤ interval_end i)%N) l
          | None => True
          end) ∧
    (expand_paths fs (before ++ path :: after)).2 = None ∧
    forallb (fun e => negb (is_client_run e))
            (run_cli fs (before ++ path :: after) exclude_paths) = true ∧
    last (run_cli fs (before ++ path :: after) exclude_paths) = Some SysExit.
Proof.
  intros fs before after exclude_paths path p r Hsplit Hrej Hglob.
  split; [reflexivity|]. split; [reflexivity|]. split; [reflexivity|].
  split; [exact parse_range_shape|].
  split; [intros s; split; [reflexivity | exact (split_on_join "," s)]|].
  split; [exact parse_intervals_ordered|].
  pose proof (expand_loop_rejects fs before after path p r ∅ []
                Hsplit Hrej Hglob) as Hne.
  destruct (expand_paths_exit fs _ Hne) as [invalid Hexit].
  unfold run_cli. rewrite Hexit.
  split; [reflexivity|]. split; reflexivity.
Qed.

Example run_cli_rejects_inverted_range :
  run_cli sample_fs ["a.py"; "a.py:5-1"; "b.py:x"] [] =
  [Print "The following paths do not exist:";
   Print ("a.py:5-1" +:+ String newline "b.py:x");
   SysExit].
Proof. vm_compute. reflexivity. Qed.

Lemma interval_literals_parse_or_are_rejected_witness :
  forallb (fun e => negb (is_client_run e))
          (run_cli sample_fs ["a.py"; "a.py:5-1"] []) = true ∧
  last (run_cli sample_fs ["a.py"; "a.py:5-1"] []) = Some SysExit.
Proof.
  exact (proj2 (proj2 (proj2 (proj2 (proj2 (proj2 (proj2
           (interval_literals_parse_or_are_rejected
              sample_fs ["a.py"] [] [] "a.py:5-1" "a.py" "5-1"
              eq_refl eq_refl eq_refl)))))))).
Defined.

(** * Further properties *)

(** ** The history and the identifiers *)

Section HistoryFacts.

Variable uuid4 : nat -> UUID.
Variable utcnow : nat -> datetime.

Lemma sent_all_cons o os : sent_all (o :: os) = sent_all [o] ++ sent_all os.
Proof. by destruct o. Qed.

Lemma step_sent a c s :
  let '(o, (c', s')) := step uuid4 utcnow a (c, s) in
  messages s' = messages s ++ sent_all [o] ∧
  uuid_draws c' = uuid_draws c + length (sent_all [o]) ∧
  StreamMessage.id <$> sent_all [o] =
    uuid4 <$> seq (uuid_draws c) (length (sent_all [o])).
Proof.
  destruct a; simpl; rewrite ?app_nil_r, ?Nat.add_0_r; try done.
  - split; [done|]. split; [lia|done].
  - unfold recv_resume.
    destruct (Broadcast.next_event _ _) as [[ev b]|]; simpl;
      rewrite ?app_nil_r, ?Nat.add_0_r; done.
  - unfold listen_resume.
    destruct (Broadcast.next_event _ _) as [[ev b]|]; simpl;
      rewrite ?app_nil_r, ?Nat.add_0_r; done.
Qed.

Lemma run_sent acts c s :
  let '(os, (c', s')) := run uuid4 utcnow acts (c, s) in
  messages s' = messages s ++ sent_all os ∧
  uuid_draws c' = uuid_draws c + length (sent_all os) ∧
  StreamMessage.id <$> sent_all os =
    uuid4 <$> seq (uuid_draws c) (length (sent_all os)).
Proof.
  revert c s. induction acts as [|a acts IH]; intros c s.
  - simpl. rewrite app_nil_r, Nat.add_0_r. done.
  - cbn [run]. pose proof (step_sent a c s) as Hs.
    destruct (step uuid4 utcnow a (c, s)) as [o [c1 s1]].
    specialize (IH c1 s1).
    destruct (run uuid4 utcnow acts (c1, s1)) as [os [c2 s2]].
    destruct Hs as (Hm1 & Hd1 & Hi1). destruct IH as (Hm & Hd & Hi).
    rewrite (sent_all_cons o os), length_app, fmap_app, seq_app, fmap_app.
    split; [by rewrite Hm, Hm1, app_assoc|]. split; [lia|].
    by rewrite Hi1, Hi, Hd1.
Qed.

End HistoryFacts.

(** X1. The history of a stream after any run of its operations is the
    history before, followed by every message sent during the run, in the
    order of the [send] calls and whatever the subscribers did. *)
Theorem history_records_every_send :
  ∀ (uuid4 : nat -> UUID) (utcnow : nat -> datetime) acts w,
    messages (run uuid4 utcnow acts w).2.2 =
    messages w.2 ++ sent_all (run uuid4 utcnow acts w).1.
Proof.
  intros uuid4 utcnow acts [c s].
  pose proof (run_sent uuid4 utcnow acts c s) as H.
  destruct (run uuid4 utcnow acts (c, s)) as [os [c' s']].
  by destruct H as [H _].
Qed.

(** X2. On a stream used from its creation, the ids in the history are
    the successive values of [uuid4()], one per message; so when [uuid4()]
    never returns the same value twice, no two messages of the history
    share an id. *)
Theorem history_ids_are_distinct :
  ∀ (uuid4 : nat -> UUID) (utcnow : nat -> datetime) acts,
    (∀ i j, uuid4 i = uuid4 j → i = j) →
    let w := run uuid4 utcnow acts (mkClock 0 0, SessionStream_init) in
    StreamMessage.id <$> messages w.2.2 =
      uuid4 <$> seq 0 (length (messages w.2.2)) ∧
    uuid_draws w.2.1 = length (messages w.2.2) ∧
    NoDup (StreamMessage.id <$> messages w.2.2).
Proof.
  intros uuid4 utcnow acts Hinj w. subst w.
  pose proof (run_sent uuid4 utcnow acts (mkClock 0 0) SessionStream_init)
    as H.
  destruct (run uuid4 utcnow acts _) as [os [c' s']].
  destruct H as (Hm & Hd & Hi). simpl in *. rewrite Hm.
  split; [exact Hi|]. split; [exact Hd|].
  rewrite Hi. apply NoDup_fmap_2; [|apply NoDup_seq].
  intros i j. apply Hinj.
Qed.

Lemma history_ids_are_distinct_witness :
  NoDup (StreamMessage.id <$>
           messages (run sample_uuid4 sample_utcnow sample_acts
                         (mkClock 0 0, SessionStream_init)).2.2).
Proof.
  exact (proj2 (proj2 (history_ids_are_distinct
                         sample_uuid4 sample_utcnow sample_acts
                         (fun i j H => Nat2N.inj i j H)))).
Defined.

(** ** A subscriber's view of a run *)

Lemma subscriber_view_of_run
    (uuid4 : nat -> UUID) (utcnow : nat -> datetime)
    channel acts c s sid s0 os c1 s1 :
  keys_below (_broadcast s) →
  enter_subscription channel s = (sid, s0) →
  forallb (fun a => negb (releases sid a)) acts = true →
  run uuid4 utcnow acts (c, s0) = (os, (c1, s1)) →
  received_by sid os ++ Broadcast.pending sid (_broadcast s1) =
  sent_on channel os.
Proof.
  intros Hk Hsub Hrel Hrun.
  unfold enter_subscription in Hsub. simpl in Hsub. injection Hsub as <- <-.
  set (b0 := (Broadcast.subscribe channel (_broadcast s)).2).
  assert (keys_below b0) as Hk0 by (by apply keys_below_subscribe).
  assert (Broadcast.listens_on (Broadcast.next_subscriber (_broadcast s))
            channel b0) as Hl0.
  { unfold Broadcast.listens_on, b0. simpl. by rewrite lookup_insert_eq. }
  assert (Broadcast.pending (Broadcast.next_subscriber (_broadcast s)) b0 = [])
    as Hp0.
  { unfold Broadcast.pending, b0. simpl. by rewrite lookup_insert_eq. }
  pose proof (run_subscriber uuid4 utcnow _ channel acts c
                {| messages := messages s; _broadcast := b0 |} Hk0 Hl0 Hrel)
    as Hinv.
  change (run uuid4 utcnow acts
            (c, {| messages := messages s; _broadcast := b0 |}) =
          (os, (c1, s1))) in Hrun.
  rewrite Hrun in Hinv. destruct Hinv as (_ & _ & Heq).
  simpl in Heq. rewrite Hp0 in Heq. exact Heq.
Qed.

(** ** Receiving one message *)

(** X3. [recv(channel)] returns the earliest message sent on [channel]
    since it subscribed, however many were sent on this or on other
    channels in the meantime, and releases its subscription; as long as
    nothing has been sent on [channel] it stays suspended. *)
Theorem recv_returns_first_sent :
  ∀ (uuid4 : nat -> UUID) (utcnow : nat -> datetime)
    channel acts c s sid s0 os c1 s1,
    keys_below (_broadcast s) →
    enter_subscription channel s = (sid, s0) →
    forallb (fun a => negb (releases sid a)) acts = true →
    received_by sid os = [] →
    run uuid4 utcnow acts (c, s0) = (os, (c1, s1)) →
    match sent_on channel os with
    | [] => recv_resume sid s1 = None
    | m :: _ =>
        ∃ s2, recv_resume sid s1 = Some (m, s2) ∧
              Broadcast.subscribers (_broadcast s2) !! sid = None ∧
              messages s2 = messages s1
    end.
Proof.
  intros uuid4 utcnow channel acts c s sid s0 os c1 s1 Hk Hsub Hrel Hnone Hrun.
  pose proof (subscriber_view_of_run
                uuid4 utcnow channel acts c s sid s0 os c1 s1 Hk Hsub Hrel Hrun)
    as Heq.
  rewrite Hnone in Heq. simpl in Heq.
  destruct (sent_on channel os) as [|m rest].
  - by apply recv_resume_empty.
  - destruct (recv_resume_head _ _ _ _ Heq) as (s2 & Hr & Hgone & _ & Hm).
    exists s2. done.
Qed.

Lemma recv_returns_first_sent_witness :
  let w := run sample_uuid4 sample_utcnow sample_sends
               (mkClock 0 0, (enter_subscription "c" SessionStream_init).2) in
  ∃ m s2, recv_resume 0 w.2.2 = Some (m, s2) ∧
          StreamMessage.data m = PyStr "one".
Proof.
  intros w.
  destruct (recv_returns_first_sent
              sample_uuid4 sample_utcnow "c" sample_sends (mkClock 0 0)
              SessionStream_init 0
              (enter_subscription "c" SessionStream_init).2
              w.1 w.2.1 w.2.2
              keys_below_new eq_refl eq_refl eq_refl eq_refl)
    as (s2 & Hr & _).
  eexists _, s2. split; [exact Hr | reflexivity].
Defined.

(** ** Channels of the client *)

Lemma reply_channel_not_fixed (x : UUID) :
  reply_channel x ≠ "input_request" ∧
  reply_channel x ≠ "default" ∧
  reply_channel x ≠ "interrupt".
Proof.
  split; [|split]; intros H.
  - change (reply_channel x)
      with ("input_request" +:+ (":" +:+ uuid_str x)) in H.
    change "input_request" with ("input_request" +:+ "") in H at 2.
    apply string_app_cancel in H. discriminate H.
  - change (reply_channel x)
      with (String "i" ("nput_request:" +:+ uuid_str x)) in H.
    discriminate H.
  - change (reply_channel x)
      with ("in" +:+ ("put_request:" +:+ uuid_str x)) in H.
    change "interrupt" with ("in" +:+ "terrupt") in H.
    apply string_app_cancel in H.
    change ("put_request:" +:+ uuid_str x)
      with (String "p" ("ut_request:" +:+ uuid_str x)) in H.
    discriminate H.
Qed.

(** X4. The channel the client answers on, [input_request:{id}], is never
    one of the fixed channels [input_request], [default] and [interrupt],
    so a reply is not taken for a new request, printed or read as an
    interrupt; and two requests whose ids differ (as 128-bit UUIDs) have
    different reply channels. *)
Theorem reply_channels_are_separate :
  ∀ x y : UUID,
    (x < uuid_bound)%N → (y < uuid_bound)%N → x ≠ y →
    reply_channel x ≠ reply_channel y ∧
    reply_channel x ≠ "input_request" ∧
    reply_channel x ≠ "default" ∧
    reply_channel x ≠ "interrupt".
Proof.
  intros x y Hx Hy Hne. split; [|exact (reply_channel_not_fixed x)].
  intros H. apply Hne. exact (reply_channel_inj x y Hx Hy H).
Qed.

Lemma reply_channels_are_separate_witness :
  reply_channel 1%N ≠ reply_channel 2%N.
Proof.
  refine (proj1 (reply_channels_are_separate 1%N 2%N _ _ _)).
  - reflexivity.
  - reflexivity.
  - discriminate.
Defined.

(** ** The whole life of the input handler *)

Lemma handler_run_raised uuid4 utcnow inputs e client c s :
  handler_run uuid4 utcnow inputs (Raised e) client c s =
  (Raised e, client, c, s).
Proof. induction inputs as [|i inputs IH]; simpl; done. Qed.

(** X5. Whatever the prompt delivers and however often the task is woken,
    [_handle_input_requests] adds at most one message to the history
    during its life: either none, or one reply from the client on a
    channel [input_request:{id}], after which the task has ended with a
    [TypeError]. *)
Theorem handler_publishes_at_most_one_reply :
  ∀ (uuid4 : nat -> UUID) (utcnow : nat -> datetime)
    inputs task client c s,
    let r := handler_run uuid4 utcnow inputs task client c s in
    messages r.2 = messages s ∨
    ∃ reply request_id,
      messages r.2 = messages s ++ [reply] ∧
      StreamMessage.source reply = CLIENT ∧
      StreamMessage.channel reply = reply_channel request_id ∧
      r.1.1.1 = Raised TypeError.
Proof.
  intros uuid4 utcnow inputs. induction inputs as [|i inputs IH];
    intros task client c s; [by left|].
  cbn [handler_run]. destruct task as [|sid|m| |e].
  - simpl. exact (IH _ _ _ (mkSessionStream (messages s) _)).
  - simpl. unfold recv_resume.
    destruct (Broadcast.next_event sid (_broadcast s)) as [[ev b]|].
    + exact (IH _ _ _ (mkSessionStream (messages s) _)).
    + apply IH.
  - simpl. destruct i as [u|]; [|apply IH].
    unfold answer_input_request. case_decide.
    + rewrite handler_run_returned. by left.
    + unfold send. cbv beta iota zeta. rewrite handler_run_raised.
      right. eexists _, (StreamMessage.id m). cbn [fst snd messages].
      split; [reflexivity|]. split; [reflexivity|]. split; reflexivity.
  - simpl. rewrite handler_run_returned. by left.
  - simpl. rewrite handler_run_raised. by left.
Qed.

(** ** Signals and interrupts *)

Lemma recv_resume_message s sid :
  fst <$> recv_resume sid s = head (Broadcast.pending sid (_broadcast s)).
Proof.
  unfold recv_resume, Broadcast.next_event, Broadcast.pending.
  destruct (Broadcast.subscribers (_broadcast s) !! sid) as [sub|]; [|done].
  by destruct (Broadcast.queue sub).
Qed.

(** X6. [_send_session_stream_interrupt] adds exactly one message to the
    history, the empty string sent by the client on [interrupt], and puts
    it on the queue of no subscriber of another channel: what a requester
    waiting for its reply, or the input handler waiting for a request,
    gets from [recv] is the same with and without the interrupt. *)
Theorem interrupt_reaches_only_interrupt_listeners :
  ∀ (uuid4 : nat -> UUID) (utcnow : nat -> datetime) c s sid channel,
    Broadcast.listens_on sid channel (_broadcast s) →
    channel ≠ "interrupt" →
    let s' := (_send_session_stream_interrupt uuid4 utcnow c s).2 in
    (∃ m, messages s' = messages s ++ [m] ∧
          StreamMessage.data m = PyStr "" ∧
          StreamMessage.source m = CLIENT ∧
          StreamMessage.channel m = "interrupt") ∧
    Broadcast.pending sid (_broadcast s') = Broadcast.pending sid (_broadcast s) ∧
    fst <$> recv_resume sid s' = fst <$> recv_resume sid s.
Proof.
  intros uuid4 utcnow c s sid channel Hl Hne.
  pose proof Hl as Hl'. apply listens_on_lookup in Hl' as (sub & Hsub & Hch).
  unfold _send_session_stream_interrupt, send. cbv beta iota zeta.
  cbn [fst snd messages].
  split; [eexists; split; [reflexivity|]; split; [reflexivity|];
          split; reflexivity|].
  assert (∀ m, Broadcast.pending sid (Broadcast.publish_nowait "interrupt" m
                                        (_broadcast s)) =
               Broadcast.pending sid (_broadcast s)) as Hp.
  { intros m. rewrite (pending_publish_nowait _ _ _ _ _ Hsub).
    rewrite decide_False by congruence. by rewrite app_nil_r. }
  split; [apply Hp|]. rewrite !recv_resume_message. cbn [_broadcast].
  by rewrite Hp.
Qed.

Lemma interrupt_reaches_only_interrupt_listeners_witness :
  Broadcast.pending sample_first.1.1.2
    (_broadcast (_send_session_stream_interrupt
                   sample_uuid4 sample_utcnow sample_first.1.2
                   sample_first.2).2) = [].
Proof.
  exact (proj1 (proj2 (interrupt_reaches_only_interrupt_listeners
                         sample_uuid4 sample_utcnow sample_first.1.2
                         sample_first.2 sample_first.1.1.2
                         (reply_channel 0%N) eq_refl
                         (proj2 (proj2 (reply_channel_not_fixed 0%N)))))).
Defined.

(** X7. Signals at the terminal client.  A signal that arrives while the
    session is not stopped ends in an [AttributeError] and changes no
    flag.  Of the signals that arrive once the session is stopped, the
    first one sets [_should_exit] and the next one sets [_force_exit], and
    no signal ever clears a flag. *)
Theorem client_signals_escalate :
  ∀ (readings : list bool) (client : TerminalClient),
    let k := length (filter (fun r => r = true) readings) in
    client_signals readings client =
      {| _should_exit := _should_exit client || bool_decide (1 ≤ k)%nat;
         _force_exit :=
           _force_exit client ||
           (if _should_exit client then bool_decide (1 ≤ k)%nat
            else bool_decide (2 ≤ k)%nat) |} ∧
    TerminalClient_handle_exit false client = (client, AttributeErrorRaised) ∧
    (TerminalClient_handle_exit true client).2 = FlagRaised.
Proof.
  intros readings client. split; [|split; [reflexivity|by destruct client as [[] ?]]].
  revert client.
  induction readings as [|st readings IH]; intros [se fe]; cbv zeta in *.
  - destruct se, fe; reflexivity.
  - cbn [client_signals]. rewrite IH. unfold TerminalClient_handle_exit.
    rewrite filter_cons. destruct st.
    + rewrite decide_True by done. cbn [length].
      set (k := length _).
      rewrite (bool_decide_eq_true_2 (1 ≤ S k)%nat) by lia.
      assert (bool_decide (2 ≤ S k)%nat = bool_decide (1 ≤ k)%nat) as ->
        by (apply bool_decide_ext; lia).
      destruct se, fe; simpl; rewrite ?orb_true_r; done.
    + rewrite decide_False by done. reflexivity.
Qed.

(** X8. Signals at the engine: from a new engine, [_should_exit] is set
    once a signal has arrived and [_force_exit] once a second one has;
    further signals change nothing. *)
Theorem engine_signals_escalate :
  ∀ k : nat,
    Engine.signals k Engine.init =
    {| Engine._should_exit := bool_decide (1 ≤ k)%nat;
       Engine._force_exit := bool_decide (2 ≤ k)%nat |}.
Proof.
  assert (∀ k e,
            Engine.signals k e =
            {| Engine._should_exit :=
                 Engine._should_exit e || bool_decide (1 ≤ k)%nat;
               Engine._force_exit :=
                 Engine._force_exit e ||
                 (if Engine._should_exit e then bool_decide (1 ≤ k)%nat
                  else bool_decide (2 ≤ k)%nat) |}) as Hgen.
  { induction k as [|k IH]; intros [se fe].
    - destruct se, fe; reflexivity.
    - cbn [Engine.signals]. rewrite IH. unfold Engine._handle_exit.
      cbn [snd].
      rewrite (bool_decide_eq_true_2 (1 ≤ S k)%nat) by lia.
      assert (bool_decide (2 ≤ S k)%nat = bool_decide (1 ≤ k)%nat) as ->
        by (apply bool_decide_ext; lia).
      destruct se, fe; simpl; rewrite ?orb_true_r; done. }
  intros k. rewrite Hgen. reflexivity.
Qed.

Lemma engine_signals_should_exit k e :
  Engine._should_exit (Engine.signals k e) =
  Engine._should_exit e || bool_decide (1 ≤ k)%nat.
Proof.
  revert e. induction k as [|k IH]; intros [se fe].
  - simpl. by rewrite orb_false_r.
  - cbn [Engine.signals]. rewrite IH. unfold Engine._handle_exit. cbn [snd].
    rewrite (bool_decide_eq_true_2 (1 ≤ S k)%nat) by lia.
    destruct se; simpl; rewrite ?orb_true_r; done.
Qed.

Lemma engine_main_loop_general sleeps e counter turns :
  Engine._should_exit e = false →
  Engine._main_loop sleeps e counter turns =
  (fun '(i, k) =>
     (Engine.signals k e,
      ((counter + Z.of_nat (S i)) mod 86400)%Z,
      (turns + S i)%nat))
    <$> list_find (fun k => 0 < k) sleeps.
Proof.
  revert counter turns.
  induction sleeps as [|k sleeps IH]; intros counter turns He.
  - destruct e as [se fe]. simpl in *. by rewrite He.
  - cbn [Engine._main_loop]. rewrite He. simpl (list_find _ (_ :: _)).
    destruct (decide (0 < k)) as [Hk|Hk].
    + assert (Engine._should_exit (Engine.signals k e) = true) as Hs.
      { rewrite engine_signals_should_exit, He.
        by rewrite (bool_decide_eq_true_2 (1 ≤ k)%nat) by lia. }
      destruct sleeps as [|k' sleeps']; cbn [Engine._main_loop];
        rewrite Hs; simpl; repeat f_equal; lia.
    + assert (k = 0) as -> by lia. cbn [Engine.signals].
      rewrite IH by done.
      destruct (list_find (fun k => 0 < k) sleeps) as [[i k]|]; simpl; [|done].
      f_equal. f_equal; [f_equal|lia].
      rewrite Zplus_mod_idemp_l. f_equal. lia.
Qed.

(** X9. [Engine._main_loop] on a new engine runs until the first sleep
    during which a signal arrives and stops right after it: it has then
    taken one turn per sleep up to that one, its counter is the number of
    turns modulo 86400 and lies in [0, 86400), and [_should_exit] is set.
    When no signal arrives it is still running. *)
Theorem engine_main_loop_stops_at_first_signal :
  ∀ sleeps : list nat,
    Engine._main_loop sleeps Engine.init 0 0 =
      (fun '(i, k) =>
         (Engine.signals k Engine.init, (Z.of_nat (S i) mod 86400)%Z, S i))
        <$> list_find (fun k => 0 < k) sleeps ∧
    match Engine._main_loop sleeps Engine.init 0 0 with
    | Some (e, counter, turns) =>
        Engine._should_exit e = true ∧ (0 ≤ counter < 86400)%Z ∧
        (turns ≤ length sleeps)%nat
    | None => Forall (fun k => k = 0) sleeps
    end.
Proof.
  intros sleeps.
  pose proof (engine_main_loop_general sleeps Engine.init 0 0 eq_refl) as H.
  split; [exact H|]. rewrite H.
  destruct (list_find (fun k => 0 < k) sleeps) as [[i k]|] eqn:E; simpl.
  - apply list_find_Some in E as (Hi & Hk & _).
    split; [|split].
    + rewrite engine_signals_should_exit.
      by rewrite (bool_decide_eq_true_2 (1 ≤ k)%nat) by lia.
    + apply Z.mod_pos_bound. lia.
    + apply lookup_lt_Some in Hi. lia.
  - apply list_find_None in E. eapply Forall_impl; [exact E|].
    simpl. intros k Hk. lia.
Qed.

(** ** The loading bar, continued *)

Lemma progress_total_nonneg ms :
  Forall progress_nonneg ms → (0 ≤ progress_total ms)%Z.
Proof.
  induction 1 as [|m ms [_ Hm] _ IH]; simpl; [lia|].
  destruct (progress_value m); simpl; lia.
Qed.

Lemma updates_count ms h z :
  bar_ok h → bar_count h = NumInt z → (0 ≤ z)%Z →
  Forall progress_nonneg ms →
  bar_count (updates ms h) = NumInt (Z.min 100 (z + progress_total ms)).
Proof.
  intros Hok Hz Hpos Hall. revert h z Hok Hz Hpos.
  induction Hall as [|m ms [Hint Hm] Hall IH]; intros h z Hok Hz Hpos.
  - destruct (update_integral (progress_message "" 0) h I Hok)
      as (_ & z' & Hz' & Hle & _).
    simpl. rewrite Hz in *. injection Hz' as <-. f_equal. lia.
  - cbn [updates progress_total foldr]. fold (progress_total ms).
    pose proof (progress_total_nonneg ms Hall) as Hrest.
    destruct (update_integral m h Hint Hok)
      as (Hok' & z' & Hz' & Hle & Hiff & Hc).
    rewrite Hz in Hz'. injection Hz' as <-.
    rewrite (IH _ _ Hok' Hc).
    + f_equal. destruct (bar_closed h) eqn:Ecl.
      * assert (z = 100%Z) by (by apply Hiff).
        destruct (progress_value m); simpl; lia.
      * destruct (progress_value m) as [k|]; simpl; lia.
    + destruct (bar_closed h); destruct (progress_value m); simpl; lia.
Qed.

(** X10. When every progress value is a non-negative integer, the count
    of the bar after any sequence of [update] calls on a new handler is
    the sum of the progress values received, capped at 100. *)
Theorem loading_bar_shows_capped_sum :
  ∀ ms : list StreamMessage.t,
    Forall progress_nonneg ms →
    bar_count (updates ms LoadingHandler_init) =
    NumInt (Z.min 100 (progress_total ms)).
Proof.
  intros ms Hall.
  exact (updates_count ms LoadingHandler_init 0 I eq_refl (Z.le_refl 0) Hall).
Qed.

Lemma loading_bar_shows_capped_sum_witness :
  bar_count (updates [progress_message "a" 60; progress_message "" 0;
                      progress_message "b" 70] LoadingHandler_init) =
  NumInt 100.
Proof.
  refine (loading_bar_shows_capped_sum
            [progress_message "a" 60; progress_message "" 0;
             progress_message "b" 70] _).
  repeat constructor; vm_compute; discriminate.
Defined.

(** X11. [LoadingHandler.update] raises [TypeError] exactly for a progress
    value that is [None] or a string; an integer, a boolean or a float
    progress never does, and on a new handler [True] counts as 1 and
    [False] as 0.  In every case the handler has a bar afterwards; a call
    that raises [TypeError], and a call for a message without progress,
    leave the count and the closed state as they were. *)
Theorem loading_update_raises_on_bad_progress :
  ∀ (m : StreamMessage.t) (h : LoadingHandler),
    let r := LoadingHandler_update m h in
    is_Some (pbar r.1) ∧
    match progress_of m with
    | Some PyNone | Some (PyStr _) =>
        r.2 = Some TypeError ∧
        bar_count r.1 = bar_count h ∧ bar_closed r.1 = bar_closed h
    | Some (PyInt _) | Some (PyBool _) | Some (PyFloat _) =>
        r.2 ≠ Some TypeError
    | None =>
        r.2 = None ∧
        bar_count r.1 = bar_count h ∧ bar_closed r.1 = bar_closed h
    end ∧
    match progress_of m with
    | Some (PyBool b) =>
        LoadingHandler_update m LoadingHandler_init =
        ({| pbar := Some (tqdm.mk 100 (NumInt (if b then 1 else 0))
                            match StreamMessage.data m with
                            | PyStr t => t
                            | _ => ""
                            end false) |}, None)
    | _ => True
    end.
Proof.
  intros m h. unfold LoadingHandler_update, bar_count, bar_closed.
  set (p0 := match pbar h with
             | Some p => if decide (_ = "") then p else _
             | None => _
             end).
  assert (tqdm.n p0 = match pbar h with Some p => tqdm.n p | None => NumInt 0 end ∧
          tqdm.disable p0 = match pbar h with Some p => tqdm.disable p | None => false end)
    as [Hn Hd].
  { subst p0. destruct (pbar h) as [p|]; [by case_decide | done]. }
  clearbody p0.
  destruct (progress_of m) as [[| b | z | f | t]|]; simpl;
    (split; [|split]); try done;
    try (by destruct b);
    repeat case_match; simpl; try done; eauto.
Qed.

(** ** Expanding paths *)

Lemma expand_loop_cons fs path paths globbed invalid :
  expand_loop fs (path :: paths) globbed invalid =
  if acceptable fs path
  then expand_loop fs paths (globbed ∪ list_to_set (expansion fs path)) invalid
  else expand_loop fs paths globbed (invalid ++ [path]).
Proof.
  cbn [expand_loop]. unfold acceptable, expansion.
  destruct (glob fs path) as [|q qs]; [|done].
  destruct (rsplit1 ":" path) as [p [r|]].
  - destruct (path_exists fs p && truthy (parse_intervals r)); [|done].
    simpl. by rewrite (right_id_L ∅ (∪)).
  - by rewrite andb_false_r.
Qed.

Lemma expand_loop_spec fs paths globbed invalid :
  expand_loop fs paths globbed invalid =
  (globbed ∪ list_to_set (filter (fun p => acceptable fs p) paths
                            ≫= expansion fs),
   invalid ++ filter (fun p => negb (acceptable fs p)) paths).
Proof.
  revert globbed invalid.
  induction paths as [|path paths IH]; intros globbed invalid.
  - simpl. by rewrite app_nil_r, (right_id_L ∅ (∪)).
  - rewrite expand_loop_cons, !filter_cons.
    destruct (acceptable fs path) eqn:Ea; rewrite IH; simpl.
    + f_equal. rewrite list_to_set_app_L. by rewrite (assoc_L (∪)).
    + f_equal. by rewrite <- app_assoc.
Qed.

Lemma forallb_filter_negb {A} (f : A → bool) (l : list A) :
  forallb f l = true ↔ filter (fun x => negb (f x)) l = [].
Proof.
  induction l as [|x l IH]; simpl; [done|]. rewrite filter_cons.
  destruct (f x); simpl.
  - exact IH.
  - split; discriminate.
Qed.

Lemma filter_all {A} (f : A → bool) (l : list A) :
  forallb f l = true → filter (fun x => f x) l = l.
Proof.
  induction l as [|x l IH]; simpl; [done|]. rewrite filter_cons.
  intros [Hx Hl]%andb_true_iff. rewrite Hx. simpl. by rewrite IH.
Qed.

Lemma expand_paths_spec fs paths :
  expand_paths fs paths =
  if forallb (acceptable fs) paths
  then ([], Some (as_path fs <$>
                    set_order fs (list_to_set (paths ≫= expansion fs))))
  else ([Print "The following paths do not exist:";
         Print (String.concat (String newline "")
                  (filter (fun p => negb (acceptable fs p)) paths));
         SysExit], None).
Proof.
  unfold expand_paths. rewrite expand_loop_spec. simpl.
  destruct (forallb (acceptable fs) paths) eqn:E.
  - pose proof E as E'. apply forallb_filter_negb in E'. rewrite E'.
    rewrite (filter_all _ _ E). by rewrite (left_id_L ∅ (∪)).
  - destruct (filter (fun p => negb (acceptable fs p)) paths) eqn:F; [|done].
    apply forallb_filter_negb in F. congruence.
Qed.

(** X12. [expand_paths] returns without printing exactly when every path
    is matched by [glob] or is an existing path followed by a colon and an
    accepted interval literal; what it returns is then the [Path] of each
    member of the set of expansions, in the iteration order of that set.
    Otherwise it prints the header and the paths that are neither, in the
    order given and joined by newlines, and exits. *)
Theorem expand_paths_exits_on_unacceptable :
  ∀ (fs : FileSystem) (paths : list string),
    expand_paths fs paths =
      (if forallb (acceptable fs) paths
       then ([], Some (as_path fs <$>
                         set_order fs (list_to_set (paths ≫= expansion fs))))
       else ([Print "The following paths do not exist:";
              Print (String.concat (String newline "")
                       (filter (fun p => negb (acceptable fs p)) paths));
              SysExit], None)) ∧
    expand_paths fs [] = ([], Some (as_path fs <$> set_order fs ∅)).
Proof.
  intros fs paths. split; [apply expand_paths_spec | reflexivity].
Qed.

(** X13. When [expand_paths] returns a list it has printed nothing, and
    the list is made of the [Path]s of some duplicate-free list of
    strings, which holds exactly the files that [glob] found for some
    given path together with the given paths that are interval literals,
    colon and ranges included. *)
Theorem expand_paths_result :
  ∀ (fs : FileSystem) (paths : list string) out ps,
    (∀ X, set_order fs X ≡ₚ elements X) →
    expand_paths fs paths = (out, Some ps) →
    out = [] ∧
    ∃ order,
      ps = as_path fs <$> order ∧ NoDup order ∧
      ∀ q, q ∈ order ↔ ∃ path, path ∈ paths ∧ q ∈ expansion fs path.
Proof.
  intros fs paths out ps Horder H. rewrite expand_paths_spec in H.
  destruct (forallb (acceptable fs) paths); [|discriminate].
  injection H as <- <-. split; [done|].
  eexists. split; [reflexivity|]. split.
  - rewrite Horder. apply NoDup_elements.
  - intros q. rewrite Horder.
    rewrite elem_of_elements, elem_of_list_to_set, list_elem_of_bind.
    split; intros (path & H1 & H2); exists path; done.
Qed.

Lemma expand_paths_result_witness :
  ∃ order,
    ["a.py:1-5,7"; "a.py"] = order ∧ NoDup order.
Proof.
  destruct (expand_paths_result
              sample_fs ["a.py"; "a.py:1-5,7"; "a.py"] []
              ["a.py:1-5,7"; "a.py"] (fun X => reflexivity _) eq_refl)
    as (_ & order & Hps & Hnd & _).
  exists order. split; [|exact Hnd].
  rewrite Hps. exact (list_fmap_id order).
Defined.

(** X14. [run_cli] starts the client exactly when all paths and all
    excluded paths are acceptable, and then prints nothing before it.  An
    unacceptable path ends the run with the report for the paths alone:
    the excluded paths are not looked at. *)
Theorem run_cli_starts_client_on_acceptable_paths :
  ∀ (fs : FileSystem) (paths exclude_paths : list string),
    run_cli fs paths exclude_paths =
    if forallb (acceptable fs) paths
    then
      if forallb (acceptable fs) exclude_paths
      then [ClientRun
              (as_path fs <$>
                 set_order fs (list_to_set (paths ≫= expansion fs)))
              (as_path fs <$>
                 set_order fs (list_to_set (exclude_paths ≫= expansion fs)))]
      else (expand_paths fs exclude_paths).1
    else (expand_paths fs paths).1.
Proof.
  intros fs paths exclude_paths. unfold run_cli.
  rewrite !expand_paths_spec.
  destruct (forallb (acceptable fs) paths); [|done].
  destruct (forallb (acceptable fs) exclude_paths); done.
Qed.

(** ** Splitting a path at its last colon *)

(** X15. [s.rsplit(sep, 1)] cuts [s] at its last separator: with a second
    part, the first part, the separator and the second part put together
    are [s] again and the second part holds no separator; without one,
    [s] holds no separator and comes back whole. *)
Theorem rsplit1_cuts_at_last_separator :
  ∀ (sep : ascii) (s : string),
    match rsplit1 sep s with
    | (before, Some after) =>
        s = before +:+ String sep after ∧ sep ∉ list_ascii_of_string after
    | (before, None) => before = s ∧ sep ∉ list_ascii_of_string s
    end.
Proof.
  intros sep s. induction s as [|ch s IH]; simpl.
  - split; [done|]. apply not_elem_of_nil.
  - destruct (rsplit1 sep s) as [before [after|]].
    + destruct IH as [-> Hno]. done.
    + destruct IH as [-> Hno]. case_decide as Hch.
      * subst ch. done.
      * split; [done|]. rewrite not_elem_of_cons. done.
Qed.

(** ** Selecting tests *)

Lemma filter_mark_loop_spec items mark exists_ new_items :
  filter_mark_loop items mark exists_ new_items =
  new_items ++ filter (fun item => marked mark item = exists_) items.
Proof.
  revert new_items. induction items as [|item items IH]; intros new_items.
  - simpl. by rewrite app_nil_r.
  - cbn [filter_mark_loop]. rewrite filter_cons.
    assert (bool_decide (is_Some (get_closest_marker mark item)) =
            marked mark item) as ->.
    { unfold get_closest_marker, marked. case_decide.
      - rewrite bool_decide_eq_true_2 by done.
        by rewrite bool_decide_eq_true_2 by eauto.
      - rewrite (bool_decide_eq_false_2 (mark ∈ _)) by done.
        apply bool_decide_eq_false_2. by intros [? ?]. }
    destruct (decide (marked mark item = exists_)); rewrite IH.
    + by rewrite <- app_assoc.
    + done.
Qed.

(** X16. [filter_mark] keeps, in their order, the items for which having
    the marker agrees with the flag; so [pytest_collection_modifyitems]
    leaves exactly the tests whose [benchmark] marker agrees with
    [--benchmark] and whose [uitest] marker agrees with [--uitest], and
    with neither option given it leaves the tests that carry neither
    marker. *)
Theorem collection_keeps_tests_matching_options :
  ∀ (benchmark uitest : bool) (items : list TestItem),
    (∀ mark flag,
        filter_mark items mark flag =
        filter (fun item => marked mark item = flag) items) ∧
    pytest_collection_modifyitems benchmark uitest items =
      filter (fun item => (marked "uitest" item = uitest) ∧
                          (marked "benchmark" item = benchmark)) items ∧
    pytest_collection_modifyitems false false items =
      filter (fun item => ("benchmark" ∉ item_markers item) ∧
                          ("uitest" ∉ item_markers item)) items.
Proof.
  intros benchmark uitest items.
  assert (∀ its mark flag,
            filter_mark its mark flag =
            filter (fun item => marked mark item = flag) its) as Hf.
  { intros its mark flag. unfold filter_mark.
    by rewrite filter_mark_loop_spec. }
  split; [apply Hf|].
  assert (∀ b u,
            pytest_collection_modifyitems b u items =
            filter (fun item => (marked "uitest" item = u) ∧
                                (marked "benchmark" item = b)) items) as Hc.
  { intros b u. unfold pytest_collection_modifyitems.
    rewrite !Hf. apply list_filter_filter. }
  split; [apply Hc|]. rewrite Hc. apply list_filter_iff.
  intros item. unfold marked. rewrite !bool_decide_eq_false. tauto.
Qed.

(** ** The handler answers the request it received *)

Lemma recv_resume_others s sid m s1 :
  recv_resume sid s = Some (m, s1) →
  messages s1 = messages s ∧
  ∀ sid', sid' ≠ sid →
    Broadcast.subscribers (_broadcast s1) !! sid' =
    Broadcast.subscribers (_broadcast s) !! sid'.
Proof.
  unfold recv_resume.
  destruct (Broadcast.next_event sid (_broadcast s)) as [[ev b]|] eqn:E;
    [|done].
  intros [= <- <-]. split; [done|]. intros sid' Hne. simpl.
  rewrite lookup_delete_ne by done. by eapply next_event_other.
Qed.

Lemma handler_run_cons uuid4 utcnow input inputs task client c s :
  handler_run uuid4 utcnow (input :: inputs) task client c s =
  let r := _handle_input_requests uuid4 utcnow input task client c s in
  handler_run uuid4 utcnow inputs r.1.1.1 r.1.1.2 r.1.2 r.2.
Proof.
  cbn [handler_run].
  by destruct (_handle_input_requests uuid4 utcnow input task client c s)
    as [[[? ?] ?] ?].
Qed.

Lemma answer_raises uuid4 utcnow request user_input client c s :
  user_input ≠ "q" →
  (answer_input_request uuid4 utcnow request user_input client c s).1.1.1 =
  Raised TypeError.
Proof.
  intros Hq. unfold answer_input_request. rewrite decide_False by exact Hq.
  reflexivity.
Qed.

Lemma listens_on_channels_agree b sid ch1 ch2 :
  Broadcast.listens_on sid ch1 b → Broadcast.listens_on sid ch2 b → ch1 = ch2.
Proof.
  unfold Broadcast.listens_on. intros H1 H2. rewrite H1 in H2.
  exact (inj Some _ _ H2).
Qed.

(** C5. [_handle_input_requests] starts by subscribing to
    [input_request].  Woken with requests queued, it takes the first one
    and, once the prompt has returned something other than [q], publishes
    exactly one message, from the client, on the channel
    [input_request:{id}] built from the id of the request it received;
    then the task is over.  Apart from the handler's own subscription, a
    subscriber's queue grows by that message when it listens on that
    channel and is unchanged otherwise.  The requester waiting in [recv] on
    that channel gets the reply and leaves, so its [recv] returns once; a
    requester of a request with another id gets nothing. *)
Theorem input_reply_reaches_only_its_requester :
  ∀ (uuid4 : nat -> UUID) (utcnow : nat -> datetime)
    hsid request rest other user_input inputs client c s sidx sidy,
    user_input ≠ "q" →
    (StreamMessage.id request < uuid_bound)%N →
    (StreamMessage.id other < uuid_bound)%N →
    StreamMessage.id request ≠ StreamMessage.id other →
    Broadcast.listens_on hsid "input_request" (_broadcast s) →
    Broadcast.pending hsid (_broadcast s) = request :: rest →
    Broadcast.listens_on sidx (reply_channel (StreamMessage.id request))
                         (_broadcast s) →
    Broadcast.pending sidx (_broadcast s) = [] →
    Broadcast.listens_on sidy (reply_channel (StreamMessage.id other))
                         (_broadcast s) →
    (∀ client0 c0 s0,
        let r0 := _handle_input_requests uuid4 utcnow None NotStarted
                                         client0 c0 s0 in
        r0.1.1.1 = AwaitingRequest (Broadcast.next_subscriber (_broadcast s0)) ∧
        Broadcast.listens_on (Broadcast.next_subscriber (_broadcast s0))
                             "input_request" (_broadcast r0.2) ∧
        messages r0.2 = messages s0) ∧
    let r := handler_run uuid4 utcnow (None :: Some user_input :: inputs)
                         (AwaitingRequest hsid) client c s in
    r.1.1.1 = Raised TypeError ∧
    ∃ reply,
      messages r.2 = messages s ++ [reply] ∧
      StreamMessage.channel reply = reply_channel (StreamMessage.id request) ∧
      StreamMessage.data reply = PyStr user_input ∧
      StreamMessage.source reply = CLIENT ∧
      (∀ sid, sid ≠ hsid →
         Broadcast.pending sid (_broadcast r.2) =
         Broadcast.pending sid (_broadcast s) ++
           (if bool_decide
                 (Broadcast.listens_on
                    sid (reply_channel (StreamMessage.id request))
                    (_broadcast s))
            then [reply] else [])) ∧
      Broadcast.pending sidy (_broadcast r.2) =
        Broadcast.pending sidy (_broadcast s) ∧
      ∃ s'',
        recv_resume sidx r.2 = Some (reply, s'') ∧
        recv_resume sidx s'' = None ∧
        Broadcast.subscribers (_broadcast s'') !! sidx = None.
Proof.
  intros uuid4 utcnow hsid request rest other user_input inputs client c s
         sidx sidy Hq Hx Hy Hne Hlh Hph Hlx Hpx Hly.
  split.
  { intros client0 c0 s0. cbn. split; [reflexivity|]. split; [|reflexivity].
    unfold Broadcast.listens_on. simpl. by rewrite lookup_insert_eq. }
  destruct (recv_resume_head _ _ _ _ Hph) as (s1 & Hrecv & _ & _ & _).
  destruct (recv_resume_others _ _ _ _ Hrecv) as [Hm1 Hsame].
  assert (∀ sid ch, sid ≠ hsid →
            (Broadcast.listens_on sid ch (_broadcast s1) ↔
             Broadcast.listens_on sid ch (_broadcast s)) ∧
            Broadcast.pending sid (_broadcast s1) =
            Broadcast.pending sid (_broadcast s)) as Hview.
  { intros sid ch Hsid. unfold Broadcast.listens_on, Broadcast.pending.
    by rewrite (Hsame sid Hsid). }
  assert (sidx ≠ hsid) as Hxh.
  { intros ->. pose proof (listens_on_channels_agree _ _ _ _ Hlx Hlh) as E.
    exact (proj1 (reply_channel_not_fixed _) E). }
  assert (sidy ≠ hsid) as Hyh.
  { intros ->. pose proof (listens_on_channels_agree _ _ _ _ Hly Hlh) as E.
    exact (proj1 (reply_channel_not_fixed _) E). }
  pose proof (answer_reaches_only_its_requester
                uuid4 utcnow request other user_input client c s1 sidx sidy
                Hq Hx Hy Hne
                (proj2 (proj1 (Hview sidx _ Hxh)) Hlx)
                (proj2 (proj1 (Hview sidy _ Hyh)) Hly)
                (eq_trans (proj2 (Hview sidx "" Hxh)) Hpx)) as Hans.
  pose proof (answer_raises uuid4 utcnow request user_input client c s1 Hq)
    as Hraise.
  cbv zeta in Hans.
  destruct (answer_input_request uuid4 utcnow request user_input client c s1)
    as [[[t cl] c2] s2] eqn:Hstep.
  cbn [fst snd] in Hans, Hraise. subst t.
  assert (handler_run uuid4 utcnow (None :: Some user_input :: inputs)
                      (AwaitingRequest hsid) client c s =
          (Raised TypeError, cl, c2, s2)) as Hrun.
  { rewrite handler_run_cons. cbv zeta. unfold _handle_input_requests.
    rewrite Hrecv. cbn [fst snd]. rewrite handler_run_cons. cbv zeta.
    unfold _handle_input_requests. rewrite Hstep. cbn [fst snd]. apply handler_run_raised. }
  intros r. subst r. rewrite Hrun. cbn [fst snd].
  split; [reflexivity|].
  destruct Hans as (reply & Hm & Hch & Hd & Hsrc & Hp & Hpy & s'' & Hr).
  exists reply. split; [by rewrite Hm, Hm1|].
  split; [exact Hch|]. split; [exact Hd|]. split; [exact Hsrc|]. split.
  - intros sid Hsid. rewrite Hp.
    destruct (Hview sid (reply_channel (StreamMessage.id request)) Hsid)
      as [Hiff ->].
    f_equal. by rewrite (bool_decide_ext _ _ Hiff).
  - split; [|by exists s''].
    rewrite Hpy. exact (proj2 (Hview sidy "" Hyh)).
Qed.

Lemma input_reply_reaches_only_its_requester_witness :
  let r := handler_run sample_uuid4 sample_utcnow [None; Some "y"; None]
                       sample_handler.1.1.1 TerminalClient_init
                       sample_request_y.1.2 sample_request_y.2 in
  ∃ reply s'',
    recv_resume sample_request_x.1.1.2 r.2 = Some (reply, s'') ∧
    StreamMessage.data reply = PyStr "y" ∧
    Broadcast.pending sample_request_y.1.1.2 (_broadcast r.2) = [].
Proof.
  destruct (input_reply_reaches_only_its_requester
              sample_uuid4 sample_utcnow 0 sample_request_x.1.1.1
              [sample_request_y.1.1.1] sample_request_y.1.1.1 "y" [None]
              TerminalClient_init sample_request_y.1.2 sample_request_y.2
              sample_request_x.1.1.2 sample_request_y.1.1.2)
    as (_ & _ & reply & _ & _ & Hdata & _ & _ & Hother & s'' & Hrecv & _).
  - discriminate.
  - reflexivity.
  - reflexivity.
  - discriminate.
  - reflexivity.
  - reflexivity.
  - reflexivity.
  - reflexivity.
  - reflexivity.
  - exists reply, s''. split; [exact Hrecv|]. split; [exact Hdata|].
    exact (eq_trans Hother eq_refl).
Defined.
